(** * PyMassSpec: the [Peak] class of [pyms/Peak/Class.py]

    A shallow embedding of the Python class [pyms.Peak.Class.Peak] and of the
    Python built-ins it relies on, followed by the properties of the class.

    Conventions of the embedding.
    - A Python [float] is an IEEE 754 binary64 number, represented by the
      Standard Library's [spec_float] with the operations of [SpecFloat] at
      precision 53 and maximal exponent 1024.  A Python [int] is a [Z].
    - Comparisons between numbers are by exact mathematical value (this is
      what Python does, also between an [int] and a [float]); a NaN compares
      false with everything.
    - A method of [Peak] is a function from the receiver's state to the
      receiver's new state and an outcome, which is a value or a raised
      exception: an exception does not roll the state back.
    - A [MassSpectrum] is held by value inside the peak.  Python holds a
      reference, and the caller of [Peak] can keep an alias to the spectrum;
      nothing proved here depends on what an alias observes.
    - The class [MassSpectrum] is not among the sources.  A spectrum is the
      two lists that [Peak] reads from it.  [crop_mass] assigns to its
      attributes [mass_list] and [mass_spec]; what their setters do with an
      empty list is a parameter, [MassSpectrum_setters], of [crop_mass] and
      of what is stated about all the operations. *)

From Stdlib Require Import ZArith QArith List String Ascii Bool Lia Lqa.
From Stdlib Require Import SpecFloat DecimalString.
From Stdlib Require Import Sorted Permutation.
Import ListNotations.
Local Open Scope string_scope.
Local Open Scope Z_scope.

(** ** Exceptions and outcomes *)

Inductive exn_class :=
| TypeError | ValueError | IndexError | NameError
| ZeroDivisionError | OverflowError.

(** An exception is its class and the constant part of its message (values
    interpolated into a message are not kept). *)
Record exn := Exn { exn_type : exn_class; exn_msg : string }.

Inductive result (A : Type) :=
| Ok (a : A)
| Raise (e : exn).
Arguments Ok {A} a.
Arguments Raise {A} e.

Definition rbind {A B} (r : result A) (k : A -> result B) : result B :=
  match r with
  | Ok a => k a
  | Raise e => Raise e
  end.

Declare Scope result_scope.
Delimit Scope result_scope with res.
Notation "x <-- c ; k" := (rbind c (fun x => k))
  (at level 61, c at next level, right associativity) : result_scope.

(** ** Python numbers *)

Module PyNum.

Definition float := spec_float.
Definition prec : Z := 53.
Definition emax : Z := 1024.

(** The float nearest to [m * 2^e] (ties to even): float literals. *)
Definition dyadic (m e : Z) : float := binary_normalize prec emax m e false.

Inductive num :=
| NInt (z : Z)
| NFloat (f : float).

(** Exact values: the extended rationals and NaN. *)
Inductive xreal := XNaN | XNegInf | XFin (q : Q) | XPosInf.

Definition float_exact (f : float) : xreal :=
  match f with
  | S754_nan => XNaN
  | S754_infinity s => if s then XNegInf else XPosInf
  | S754_zero _ => XFin (inject_Z 0)
  | S754_finite s m e =>
      XFin match e with
           | Zneg p => Qmake (cond_Zopp s (Zpos m)) (2 ^ p)
           | _ => inject_Z (cond_Zopp s (Zpos m) * 2 ^ e)
           end
  end.

Definition exact (n : num) : xreal :=
  match n with
  | NInt z => XFin (inject_Z z)
  | NFloat f => float_exact f
  end.

Definition xcompare (a b : xreal) : option comparison :=
  match a, b with
  | XNaN, _ | _, XNaN => None
  | XNegInf, XNegInf => Some Eq
  | XNegInf, _ => Some Lt
  | _, XNegInf => Some Gt
  | XPosInf, XPosInf => Some Eq
  | XPosInf, _ => Some Gt
  | _, XPosInf => Some Lt
  | XFin p, XFin q => Some (Qcompare p q)
  end.

Definition compare (a b : num) : option comparison :=
  xcompare (exact a) (exact b).

(** Python's [<], [>], [<=], [>=] and [==] on numbers. *)
Definition lt (a b : num) : bool :=
  match compare a b with Some Lt => true | _ => false end.
Definition gt (a b : num) : bool :=
  match compare a b with Some Gt => true | _ => false end.
Definition le (a b : num) : bool :=
  match compare a b with Some (Lt | Eq) => true | _ => false end.
Definition ge (a b : num) : bool :=
  match compare a b with Some (Gt | Eq) => true | _ => false end.
Definition eq (a b : num) : bool :=
  match compare a b with Some Eq => true | _ => false end.

Definition is_nan (a : num) : bool :=
  match exact a with XNaN => true | _ => false end.

(** [float(z)] for an [int]: the nearest float, or an overflow error. *)
Definition float_of_int (z : Z) : result float :=
  match binary_normalize prec emax z 0 false with
  | S754_infinity _ => Raise (Exn OverflowError "int too large to convert to float")
  | f => Ok f
  end.

Definition to_float (a : num) : result float :=
  match a with
  | NInt z => float_of_int z
  | NFloat f => Ok f
  end.

(** [int(x)] for a number: truncation towards zero. *)
Definition trunc (f : float) : result Z :=
  match f with
  | S754_nan => Raise (Exn ValueError "cannot convert float NaN to integer")
  | S754_infinity _ => Raise (Exn OverflowError "cannot convert float infinity to integer")
  | S754_zero _ => Ok 0
  | S754_finite s m e =>
      Ok (cond_Zopp s match e with
                      | Zneg p => Zpos m / 2 ^ Zpos p
                      | _ => Zpos m * 2 ^ e
                      end)
  end.

Definition to_int (a : num) : result Z :=
  match a with
  | NInt z => Ok z
  | NFloat f => trunc f
  end.

(** Binary arithmetic: [int] with [int] is exact, anything else converts
    both operands to [float] first. *)
Definition arith (fz : Z -> Z -> Z) (ff : float -> float -> float)
    (a b : num) : result num :=
  match a, b with
  | NInt x, NInt y => Ok (NInt (fz x y))
  | _, _ =>
      (x <-- to_float a ;
       y <-- to_float b ;
       Ok (NFloat (ff x y)))%res
  end.

Definition mul : num -> num -> result num := arith Z.mul (SFmul prec emax).
Definition sub : num -> num -> result num := arith Z.sub (SFsub prec emax).

Definition abs (a : num) : num :=
  match a with
  | NInt z => NInt (Z.abs z)
  | NFloat f => NFloat (SFabs f)
  end.

Definition float_is_zero (f : float) : bool :=
  match f with S754_zero _ => true | _ => false end.

Definition int_as_mantissa (z : Z) : float :=
  match z with
  | Z0 => S754_zero false
  | Zpos p => S754_finite false p 0
  | Zneg p => S754_finite true p 0
  end.

(** True division [a / b].  Of two [int]s it is the float nearest to the
    exact quotient; otherwise the operands are converted first. *)
Definition truediv (a b : num) : result num :=
  match a, b with
  | NInt x, NInt y =>
      if Z.eqb y 0 then Raise (Exn ZeroDivisionError "division by zero")
      else match SFdiv prec emax (int_as_mantissa x) (int_as_mantissa y) with
           | S754_infinity _ =>
               Raise (Exn OverflowError "integer division result too large for a float")
           | q => Ok (NFloat q)
           end
  | _, _ =>
      (x <-- to_float a ;
       y <-- to_float b ;
       if float_is_zero y
       then Raise (Exn ZeroDivisionError "float division by zero")
       else Ok (NFloat (SFdiv prec emax x y)))%res
  end.

(** *** Formatting *)

(** [format(z, "d")] *)
Definition format_d (z : Z) : string := NilZero.string_of_int (Z.to_int z).

Definition digit (d : Z) : ascii := ascii_of_nat (48 + Z.to_nat d).

(** Nearest integer to [n / d], ties to even, for [0 <= n] and [0 < d]. *)
Definition div_half_even (n d : Z) : Z :=
  let q := n / d in
  match Z.compare (2 * (n mod d)) d with
  | Lt => q
  | Gt => q + 1
  | Eq => if Z.even q then q else q + 1
  end.

(** [format(f, ".2f")]: the exact value rounded to two decimals. *)
Definition format_2f (f : float) : string :=
  match f with
  | S754_nan => "nan"
  | S754_infinity s => if s then "-inf" else "inf"
  | S754_zero s => if s then "-0.00" else "0.00"
  | S754_finite s m e =>
      let h := match e with
               | Zneg p => div_half_even (Zpos m * 100) (2 ^ Zpos p)
               | _ => Zpos m * 2 ^ e * 100
               end in
      (if s then "-" else "") ++ format_d (h / 100) ++ "."
        ++ String (digit (h mod 100 / 10)) (String (digit (h mod 10)) "")
  end.

End PyNum.

Abbreviation num := PyNum.num.
Abbreviation NInt := PyNum.NInt.
Abbreviation NFloat := PyNum.NFloat.
Abbreviation float := PyNum.float.

(** ** Python values *)

(** Modelled from the spec: the class [pyms.Spectrum.MassSpectrum] is not
    among the sources.  The spec gives what [Peak] consumes from it: a mass
    list and the parallel intensity list (which the class calls
    [mass_spec]), index-aligned.  Both are lists of numbers; a [bool] in
    such a list is the [int] it is. *)
Record MassSpectrum := mkMS { mass_list : list num; mass_spec : list num }.

(** Modelled from the spec: [mass_list] and [mass_spec] are properties of
    the absent class, so that an assignment to one of them runs its setter.
    Assigned a list that is not empty, the setter stores it: the spec has
    [crop_mass] filter the two lists, and [test_Peak_List.py] crops a
    spectrum and goes on with the peak.  Neither the spec nor the sources
    say what a setter does with the empty list, whether it stores it and
    whether it returns or raises.  That is a parameter of the model: what
    the spectrum is afterwards, and the outcome. *)
Class MassSpectrum_setters := {
  set_empty_mass_list : MassSpectrum -> MassSpectrum * result unit;
  set_empty_mass_spec : MassSpectrum -> MassSpectrum * result unit
}.

(** [ms.mass_list = l] and [ms.mass_spec = l] *)
Definition MassSpectrum_set_mass_list {setters : MassSpectrum_setters}
    (l : list num) (ms : MassSpectrum) : MassSpectrum * result unit :=
  match l with
  | [] => set_empty_mass_list ms
  | _ => (mkMS l (mass_spec ms), Ok tt)
  end.

Definition MassSpectrum_set_mass_spec {setters : MassSpectrum_setters}
    (l : list num) (ms : MassSpectrum) : MassSpectrum * result unit :=
  match l with
  | [] => set_empty_mass_spec ms
  | _ => (mkMS (mass_list ms) l, Ok tt)
  end.

(** The values passed to the methods of [Peak].  Strings are ASCII text. *)
#[local] Set Warnings "-register-all".
Inductive pyval :=
| PNone
| PBool (b : bool)
| PInt (z : Z)
| PFloat (f : float)
| PStr (s : string)
| PList (l : list pyval)
| PTuple (l : list pyval)
| PDict (d : list (pyval * pyval))
| PMassSpectrum (ms : MassSpectrum).

(** [isinstance(v, (int, float))], with the number the value is. *)
Definition as_num (v : pyval) : option num :=
  match v with
  | PBool b => Some (NInt (if b then 1 else 0))
  | PInt z => Some (NInt z)
  | PFloat f => Some (NFloat f)
  | _ => None
  end.

Definition is_number (v : pyval) : bool :=
  match as_num v with Some _ => true | None => false end.

(** [isinstance(v, int)] *)
Definition as_int (v : pyval) : option Z :=
  match v with
  | PBool b => Some (if b then 1 else 0)
  | PInt z => Some z
  | _ => None
  end.

Definition is_MassSpectrum (v : pyval) : bool :=
  match v with PMassSpectrum _ => true | _ => false end.

(** Truth value testing.  A [MassSpectrum] has a [__len__], the length of its
    mass list. *)
Definition truthy (v : pyval) : bool :=
  match v with
  | PNone => false
  | PBool b => b
  | PInt z => negb (Z.eqb z 0)
  | PFloat f => negb (PyNum.float_is_zero f)
  | PStr s => negb (String.eqb s "")
  | PList l | PTuple l => match l with [] => false | _ => true end
  | PDict d => match d with [] => false | _ => true end
  | PMassSpectrum ms => match mass_list ms with [] => false | _ => true end
  end.

(** *** [int(s)] for a string, base 10 *)

(** White space around the literal, a sign, and digits with single
    underscores between them.  The interpreter's limit on the number of
    digits is left out. *)

Definition is_space (c : ascii) : bool :=
  let n := nat_of_ascii c in
  ((9 <=? n) && (n <=? 13) || (28 <=? n) && (n <=? 32))%nat.

Definition digit_val (c : ascii) : option Z :=
  let n := Z.of_nat (nat_of_ascii c) in
  if (48 <=? n) && (n <=? 57) then Some (n - 48) else None.

Fixpoint lstrip (s : string) : string :=
  match s with
  | String c s' => if is_space c then lstrip s' else s
  | EmptyString => s
  end.

Fixpoint all_space (s : string) : bool :=
  match s with
  | String c s' => is_space c && all_space s'
  | EmptyString => true
  end.

(** Digits, single underscores between them, then white space to the end. *)
Fixpoint int_digits (s : string) (acc : Z) : option Z :=
  match s with
  | String c s' =>
      match digit_val c with
      | Some d =>
          let acc' := 10 * acc + d in
          match s' with
          | EmptyString => Some acc'
          | String "_" s'' => int_digits s'' acc'
          | _ => if all_space s' then Some acc' else int_digits s' acc'
          end
      | None => None
      end
  | EmptyString => None
  end.

Definition int_of_string (s : string) : option Z :=
  match lstrip s with
  | String "-" r => option_map Z.opp (int_digits r 0)
  | String "+" r => int_digits r 0
  | r => int_digits r 0
  end.

(** [int(v)] *)
Definition py_int (v : pyval) : result Z :=
  match v with
  | PBool b => Ok (if b then 1 else 0)
  | PInt z => Ok z
  | PFloat f => PyNum.trunc f
  | PStr s =>
      match int_of_string s with
      | Some z => Ok z
      | None => Raise (Exn ValueError "invalid literal for int() with base 10")
      end
  | _ => Raise (Exn TypeError
      "int() argument must be a string, a bytes-like object or a real number")
  end.

(** *** Built-ins on lists *)

(** [l[i]] for [0 <= i] *)
Definition index {A} (l : list A) (i : nat) : result A :=
  match nth_error l i with
  | Some x => Ok x
  | None => Raise (Exn IndexError "list index out of range")
  end.

Fixpoint min_from (m : num) (l : list num) : num :=
  match l with
  | [] => m
  | x :: l' => min_from (if PyNum.lt x m then x else m) l'
  end.

Fixpoint max_from (m : num) (l : list num) : num :=
  match l with
  | [] => m
  | x :: l' => max_from (if PyNum.gt x m then x else m) l'
  end.

(** [min(l)] and [max(l)]: the first extremal element. *)
Definition py_min (l : list num) : result num :=
  match l with
  | [] => Raise (Exn ValueError "min() arg is an empty sequence")
  | x :: l' => Ok (min_from x l')
  end.

Definition py_max (l : list num) : result num :=
  match l with
  | [] => Raise (Exn ValueError "max() arg is an empty sequence")
  | x :: l' => Ok (max_from x l')
  end.

(** ** The state of a peak *)

(** The attributes of a [Peak] object.  [_ic_mass] is [PNone] when unset.
    [_UID] is assigned by [make_UID], which the constructor calls before it
    returns. *)
Record Peak := mkPeak {
  is_outlier : pyval;
  _rt : float;
  _pt_bounds : option (pyval * pyval * pyval);
  _area : option pyval;
  _ion_areas : list (pyval * pyval);
  _mass_spectrum : option MassSpectrum;
  _ic_mass : pyval;
  _UID : string
}.

Definition with_is_outlier (v : pyval) (p : Peak) : Peak :=
  mkPeak v (_rt p) (_pt_bounds p) (_area p) (_ion_areas p)
         (_mass_spectrum p) (_ic_mass p) (_UID p).
Definition with_pt_bounds (b : option (pyval * pyval * pyval)) (p : Peak) : Peak :=
  mkPeak (is_outlier p) (_rt p) b (_area p) (_ion_areas p)
         (_mass_spectrum p) (_ic_mass p) (_UID p).
Definition with_area (a : option pyval) (p : Peak) : Peak :=
  mkPeak (is_outlier p) (_rt p) (_pt_bounds p) a (_ion_areas p)
         (_mass_spectrum p) (_ic_mass p) (_UID p).
Definition with_ion_areas (d : list (pyval * pyval)) (p : Peak) : Peak :=
  mkPeak (is_outlier p) (_rt p) (_pt_bounds p) (_area p) d
         (_mass_spectrum p) (_ic_mass p) (_UID p).
Definition with_mass_spectrum (ms : option MassSpectrum) (p : Peak) : Peak :=
  mkPeak (is_outlier p) (_rt p) (_pt_bounds p) (_area p) (_ion_areas p)
         ms (_ic_mass p) (_UID p).
Definition with_ic_mass (v : pyval) (p : Peak) : Peak :=
  mkPeak (is_outlier p) (_rt p) (_pt_bounds p) (_area p) (_ion_areas p)
         (_mass_spectrum p) v (_UID p).
Definition with_UID (u : string) (p : Peak) : Peak :=
  mkPeak (is_outlier p) (_rt p) (_pt_bounds p) (_area p) (_ion_areas p)
         (_mass_spectrum p) (_ic_mass p) u.

(** ** Methods: state and exceptions *)

Definition M (A : Type) : Type := Peak -> Peak * result A.

Definition ret {A} (a : A) : M A := fun self => (self, Ok a).
Definition raise {A} (c : exn_class) (msg : string) : M A :=
  fun self => (self, Raise (Exn c msg)).
Definition bind {A B} (m : M A) (k : A -> M B) : M B :=
  fun self =>
    match m self with
    | (self', Ok a) => k a self'
    | (self', Raise e) => (self', Raise e)
    end.
Definition lift {A} (r : result A) : M A := fun self => (self, r).
Definition get {A} (f : Peak -> A) : M A := fun self => (self, Ok (f self)).
Definition assign (f : Peak -> Peak) : M unit := fun self => (f self, Ok tt).

Declare Scope peak_scope.
Delimit Scope peak_scope with peak.
Notation "x <- c ;; k" := (bind c (fun x => k))
  (at level 61, c at next level, right associativity) : peak_scope.
Notation "c ;; k" := (bind c (fun _ => k))
  (at level 61, right associativity) : peak_scope.

(** [if b: raise c(msg)] *)
Definition raise_if (b : bool) (c : exn_class) (msg : string) : M unit :=
  if b then raise c msg else ret tt.
Local Open Scope peak_scope.

(** A statement that acts on the spectrum object that [self._mass_spectrum]
    holds, where one is set: the peak holds the spectrum as the statement
    leaves it, whether it returns or raises. *)
Definition on_spectrum (f : MassSpectrum -> MassSpectrum * result unit) : M unit :=
  fun self =>
    match _mass_spectrum self with
    | Some ms => let (ms', r) := f ms in (with_mass_spectrum (Some ms') self, r)
    | None => (self, Ok tt)
    end.

(** [self._mass_spectrum.mass_list = l] and [self._mass_spectrum.mass_spec = l] *)
Definition set_mass_list {setters : MassSpectrum_setters} (l : list num) : M unit :=
  on_spectrum (MassSpectrum_set_mass_list l).
Definition set_mass_spec {setters : MassSpectrum_setters} (l : list num) : M unit :=
  on_spectrum (MassSpectrum_set_mass_spec l).

(** The intensity list of the spectrum once an item of it was assigned,
    [self._mass_spectrum.mass_spec[ix] = v]: the item is written into the
    list that the spectrum holds, and no setter runs.  ([test_Peak_List.py]
    reads the item back from the peak.) *)
Definition assign_mass_spec (l : list num) : M unit :=
  assign (fun self =>
    match _mass_spectrum self with
    | Some ms => with_mass_spectrum (Some (mkMS (mass_list ms) l)) self
    | None => self
    end).

(** *** [make_UID] *)

(** The loop of [make_UID] from index [ii] on: [(best, best_ii, best2_ii)]. *)
Fixpoint uid_scan (l : list num) (ii : nat) (best : num) (best_ii best2_ii : nat)
  : num * nat * nat :=
  match l with
  | [] => (best, best_ii, best2_ii)
  | x :: l' =>
      if PyNum.gt x best
      then uid_scan l' (S ii) x ii best_ii
      else uid_scan l' (S ii) best best_ii best2_ii
  end.

(** The UID string of a peak with a mass spectrum. *)
Definition spectrum_UID (ms : MassSpectrum) (rt : float) : result string :=
  (let '(best, best_ii, best2_ii) := uid_scan (mass_spec ms) 0 (NInt 0) 0 0 in
   x <-- index (mass_spec ms) best2_ii ;
   hundred_x <-- PyNum.mul (NInt 100) x ;
   q <-- PyNum.truediv hundred_x best ;
   ratio <-- PyNum.to_int q ;
   m1 <-- index (mass_list ms) best_ii ;
   i1 <-- PyNum.to_int m1 ;
   m2 <-- index (mass_list ms) best2_ii ;
   i2 <-- PyNum.to_int m2 ;
   Ok (PyNum.format_d i1 ++ "-" ++ PyNum.format_d i2 ++ "-"
       ++ PyNum.format_d ratio ++ "-" ++ PyNum.format_2f rt))%res.

Definition ion_UID (ic_mass : pyval) (rt : float) : result string :=
  (i <-- py_int ic_mass ;
   Ok (PyNum.format_d i ++ "-" ++ PyNum.format_2f rt))%res.

Definition make_UID : M unit :=
  ms <- get _mass_spectrum ;;
  match ms with
  | Some ms =>
      rt <- get _rt ;;
      uid <- lift (spectrum_UID ms rt) ;;
      assign (with_UID uid)
  | None =>
      ic <- get _ic_mass ;;
      match ic with
      | PNone =>
          rt <- get _rt ;;
          assign (with_UID (PyNum.format_2f rt))
      | _ =>
          rt <- get _rt ;;
          uid <- lift (ion_UID ic rt) ;;
          assign (with_UID uid)
      end
  end.

(** *** [Peak.__init__] *)

Definition sixty : float := PyNum.dyadic 60 0.

(** [Peak(rt, ms, minutes, outlier)]: the new object, unless the constructor
    raises. *)
Definition Peak_init (rt ms minutes outlier : pyval) : result Peak :=
  match as_num rt with
  | None => Raise (Exn TypeError "'rt' must be a number")
  | Some rt =>
      if truthy ms && negb (is_MassSpectrum ms) && negb (is_number ms)
      then Raise (Exn TypeError "'ms' must be a number or a MassSpectrum object")
      else
        (rt <-- (if truthy minutes then PyNum.mul rt (NFloat sixty) else Ok rt) ;
         rt <-- PyNum.to_float rt ;
         let self :=
           match ms with
           | PMassSpectrum ms => mkPeak outlier rt None None [] (Some ms) PNone ""
           | _ => mkPeak outlier rt None None [] None ms ""
           end in
         match make_UID self with
         | (self, Ok _) => Ok self
         | (_, Raise e) => Raise e
         end)%res
  end.

(** *** Setters *)

(** [Peak.area = value] *)
Definition set_area (value : pyval) : M unit :=
  match as_num value with
  | None => raise TypeError "'Peak.area' must be a positive number"
  | Some v =>
      raise_if (PyNum.le v (NInt 0)) ValueError "'Peak.area' must be a positive number" ;;
      assign (with_area (Some value))
  end.

(** Modelled from the spec: [pyms.Utils.Utils.is_sequence] is not among the
    sources; the spec asks [bounds] for an "ordered sequence", a list or a
    tuple here, whose items are returned. *)
Definition is_sequence (v : pyval) : option (list pyval) :=
  match v with
  | PList l | PTuple l => Some l
  | _ => None
  end.

Definition is_int (v : pyval) : bool :=
  match as_int v with Some _ => true | None => false end.

(** [Peak.bounds = value] *)
Definition set_bounds_attr (value : pyval) : M unit :=
  match is_sequence value with
  | None => raise TypeError "'Peak.bounds' must be a Sequence"
  | Some [l; a; r] =>
      raise_if (negb (is_int l)) TypeError "'Peak.bounds' element must be an integer" ;;
      raise_if (negb (is_int a)) TypeError "'Peak.bounds' element must be an integer" ;;
      raise_if (negb (is_int r)) TypeError "'Peak.bounds' element must be an integer" ;;
      assign (with_pt_bounds (Some (l, a, r)))
  | Some _ => raise ValueError "'Peak.bounds' must have exactly 3 elements"
  end.

(** [Peak.set_bounds(left, apex, right)] *)
Definition set_bounds (left apex right : pyval) : M unit :=
  set_bounds_attr (PTuple [left; apex; right]).

(** [Peak.ic_mass = value] *)
Definition set_ic_mass (value : pyval) : M unit :=
  raise_if (negb (is_number value)) TypeError "'Peak.ic_mass' must be a number" ;;
  assign (with_ic_mass value) ;;
  assign (with_mass_spectrum None) ;;
  make_UID.

(** [Peak.ion_areas = value] *)
Definition set_ion_areas (value : pyval) : M unit :=
  match value with
  | PDict d =>
      first_key <- lift (index (map fst d) 0) ;;
      raise_if (negb (is_number first_key)) TypeError
        "'Peak.ion_areas' must be a dictionary of ion:ion_area pairs" ;;
      assign (with_ion_areas d)
  | _ => raise TypeError "'Peak.ion_areas' must be a dictionary of ion:ion_area pairs"
  end.

(** [Peak.mass_spectrum = value] *)
Definition set_mass_spectrum (value : pyval) : M unit :=
  match value with
  | PMassSpectrum ms =>
      assign (with_mass_spectrum (Some ms)) ;;
      assign (with_ic_mass PNone) ;;
      make_UID
  | _ => raise TypeError "'Peak.mass_spectrum' must be a MassSpectrum object"
  end.

(** [d[ion] = area] for an [int] key [z]: a key equal to it keeps its place. *)
Fixpoint dict_set_int (d : list (pyval * pyval)) (ion : pyval) (z : Z) (area : pyval)
  : list (pyval * pyval) :=
  match d with
  | [] => [(ion, area)]
  | (k, v) :: d' =>
      if match as_num k with Some n => PyNum.eq n (NInt z) | None => false end
      then (k, area) :: d'
      else (k, v) :: dict_set_int d' ion z area
  end.

(** [Peak.set_ion_area(ion, area)] *)
Definition set_ion_area (ion area : pyval) : M unit :=
  match as_int ion with
  | None => raise TypeError "'ion' must be an integer"
  | Some z =>
      raise_if (negb (is_number area)) TypeError "'area' must be a number" ;;
      d <- get _ion_areas ;;
      assign (with_ion_areas (dict_set_int d ion z area))
  end.

(** *** [crop_mass] *)

(** The loop of [crop_mass] from index [ii] on. *)
Fixpoint crop_scan (mass_min mass_max : num) (ml spec : list num) (ii : nat)
    (new_mass_list new_mass_spec : list num) : result (list num * list num) :=
  match ml with
  | [] => Ok (new_mass_list, new_mass_spec)
  | mass :: ml' =>
      if PyNum.le mass_min mass && PyNum.le mass mass_max
      then (y <-- index spec ii ;
            crop_scan mass_min mass_max ml' spec (S ii)
                      (new_mass_list ++ [mass]) (new_mass_spec ++ [y]))%res
      else crop_scan mass_min mass_max ml' spec (S ii) new_mass_list new_mass_spec
  end.

Definition crop_empty : exn := Exn ValueError "mass spectrum is now empty".

(** [Peak.crop_mass(mass_min, mass_max)]; the value is the list of the
    warnings issued. *)
Definition crop_mass {setters : MassSpectrum_setters} (mass_min mass_max : pyval)
  : M (list string) :=
  ms <- get _mass_spectrum ;;
  match ms with
  | None => raise ValueError "Cannot crop the mass range of a single ion peak."
  | Some ms =>
      match as_num mass_min, as_num mass_max with
      | Some lo, Some hi =>
          raise_if (PyNum.ge lo hi) ValueError "'mass_min' must be less than 'mass_max'" ;;
          smallest <- lift (py_min (mass_list ms)) ;;
          raise_if (PyNum.lt lo smallest) ValueError
            "'mass_min' is less than the smallest mass" ;;
          largest <- lift (py_max (mass_list ms)) ;;
          raise_if (PyNum.gt hi largest) ValueError
            "'mass_max' is greater than the largest mass" ;;
          new <- lift (crop_scan lo hi (mass_list ms) (mass_spec ms) 0 [] []) ;;
          set_mass_list (fst new) ;;
          set_mass_spec (snd new) ;;
          match fst new with
          | [] => lift (Raise crop_empty)
          | _ =>
              let warnings :=
                if (List.length (fst new) <? 10)%nat
                then ["peak mass spectrum contains < 10 points"] else [] in
              make_UID ;;
              ret warnings
          end
      | _, _ => raise TypeError "'mass_min' and 'mass_max' must be numbers"
      end
  end.

(** *** [null_mass] *)

(** The loop of [null_mass] from index [ii] on: the final [ix]. *)
Fixpoint null_scan (mass : num) (ml : list num) (ii : nat) (best : num) (ix : nat)
  : result nat :=
  match ml with
  | [] => Ok ix
  | m :: ml' =>
      (d <-- PyNum.sub m mass ;
       let tmp := PyNum.abs d in
       if PyNum.lt tmp best
       then null_scan mass ml' (S ii) tmp ii
       else null_scan mass ml' (S ii) best ix)%res
  end.

(** [l[ix] = v] *)
Fixpoint set_item {A} (l : list A) (ix : nat) (v : A) : result (list A) :=
  match l, ix with
  | [], _ => Raise (Exn IndexError "list assignment index out of range")
  | _ :: l', O => Ok (v :: l')
  | x :: l', S ix' => (r <-- set_item l' ix' v ; Ok (x :: r))%res
  end.

(** [Peak.null_mass(mass)] *)
Definition null_mass (mass : pyval) : M unit :=
  ms <- get _mass_spectrum ;;
  match ms with
  | None => raise NameError "mass spectrum not set for this peak"
  | Some ms =>
      match as_num mass with
      | None => raise TypeError "'mass' must be a number"
      | Some mass =>
          smallest <- lift (py_min (mass_list ms)) ;;
          out_of_range <-
            (if PyNum.lt mass smallest then ret true
             else largest <- lift (py_max (mass_list ms)) ;;
                  ret (PyNum.gt mass largest)) ;;
          raise_if out_of_range IndexError "'mass' not in mass range:" ;;
          best <- lift (py_max (mass_list ms)) ;;
          ix <- lift (null_scan mass (mass_list ms) 0 best 0) ;;
          spec <- lift (set_item (mass_spec ms) ix (NInt 0)) ;;
          assign_mass_spec spec ;;
          make_UID
      end
  end.

(** *** [find_mass_spectrum] *)

(** Modelled from the spec: [pyms.IntensityMatrix.IntensityMatrix] is not
    among the sources; the spec gives the two look-ups that [Peak] consumes,
    [get_index_at_time(rt) -> index] and [get_ms_at_index(index) ->
    MassSpectrum].  Either may raise. *)
Record IntensityMatrix := mkIM {
  get_index_at_time : float -> result Z;
  get_ms_at_index : Z -> result MassSpectrum
}.

(** The apex point that [find_mass_spectrum] looks the spectrum up at: the
    [if from_bounds: ... else: ...] of the method. *)
Definition pt_apex (data : IntensityMatrix) (from_bounds : pyval) : M Z :=
  if truthy from_bounds
  then
    bounds <- get _pt_bounds ;;
    match bounds with
    | None => raise NameError "pt_bounds not set for this peak"
    | Some (_, apex, _) =>
        match as_int apex with
        | Some z => ret z
        | None => raise TypeError "list indices must be integers or slices"
        end
    end
  else
    rt <- get _rt ;;
    lift (get_index_at_time data rt).

(** [Peak.find_mass_spectrum(data, from_bounds)]; [data] is an
    [IntensityMatrix] or some other value. *)
Definition find_mass_spectrum (data : IntensityMatrix + pyval) (from_bounds : pyval)
  : M unit :=
  match data with
  | inr _ => raise TypeError "'data' must be an IntensityMatrix"
  | inl data =>
      pt_apex <- pt_apex data from_bounds ;;
      ms <- lift (get_ms_at_index data pt_apex) ;;
      assign (with_mass_spectrum (Some ms)) ;;
      assign (with_ic_mass PNone) ;;
      make_UID
  end.

(** *** [get_third_highest_mz] *)

(** The loop of [get_third_highest_mz] from index [ii] on: the final
    [best3_ii]. *)
Fixpoint third_scan (l : list num) (ii : nat) (best : num)
    (best_ii best2_ii best3_ii : nat) : nat :=
  match l with
  | [] => best3_ii
  | intensity :: l' =>
      if PyNum.gt intensity best
      then third_scan l' (S ii) intensity ii best_ii best2_ii
      else third_scan l' (S ii) best best_ii best2_ii best3_ii
  end.

(** [Peak.get_third_highest_mz()]: [None] is Python's [None]. *)
Definition get_third_highest_mz (self : Peak) : result (option Z) :=
  match _mass_spectrum self with
  | Some ms =>
      let best3_ii := third_scan (mass_spec ms) 0 (NInt 0) 0 0 0 in
      (m <-- index (mass_list ms) best3_ii ;
       z <-- PyNum.to_int m ;
       Ok (Some z))%res
  | None => Ok None
  end.

(** *** [top_ions] *)

(** [<] on pairs of numbers: the first components that differ decide. *)
Definition pair_lt (a b : num * num) : bool :=
  if PyNum.eq (fst a) (fst b)
  then if PyNum.eq (snd a) (snd b) then false else PyNum.lt (snd a) (snd b)
  else PyNum.lt (fst a) (fst b).

(** [sorted(l)]: a stable sort by [<].  Each element is inserted before the
    first one it is less than; on elements that [<] orders totally (no NaN)
    this is the list every stable sort returns. *)
Section Sorted.
Context {A : Type} (less : A -> A -> bool).

Fixpoint insert (x : A) (l : list A) : list A :=
  match l with
  | [] => [x]
  | y :: l' => if less x y then x :: l else y :: insert x l'
  end.

Definition sorted (l : list A) : list A :=
  fold_left (fun acc x => insert x acc) l [].
End Sorted.

(** [l[start:]] *)
Definition slice_from {A} (l : list A) (start : Z) : list A :=
  let len := Z.of_nat (List.length l) in
  let start := if start <? 0 then Z.max (start + len) 0 else Z.min start len in
  skipn (Z.to_nat start) l.

(** [zip(a, b)] is [combine a b]. *)
Definition sorted_ic (ms : MassSpectrum) : list (num * num) :=
  sorted pair_lt (combine (mass_spec ms) (mass_list ms)).

(** [Peak.top_ions(num_ions)] *)
Definition top_ions (num_ions : pyval) (self : Peak) : result (list num) :=
  match as_int num_ions with
  | None => Raise (Exn TypeError "'n_top_ions' must be an integer")
  | Some n =>
      match _mass_spectrum self with
      | None => Raise (Exn ValueError "Cannot retrieve the top_ions of a single ion peak.")
      | Some ms =>
          let top_ic := slice_from (sorted_ic ms) (- n) in
          Ok (map snd top_ic)
      end
  end.

(** ** Notions used by the statements *)

(** The UID that [make_UID] computes, as a function of the state. *)
Definition compute_UID (self : Peak) : result string :=
  match _mass_spectrum self with
  | Some ms => spectrum_UID ms (_rt self)
  | None =>
      match _ic_mass self with
      | PNone => Ok (PyNum.format_2f (_rt self))
      | ic => ion_UID ic (_rt self)
      end
  end.

(** At most one of the mass spectrum and the single ion mass is set. *)
Definition exclusive (p : Peak) : Prop :=
  _mass_spectrum p = None \/ _ic_mass p = PNone.

(** The operations that assign to an attribute of a peak: the setters, the
    mutating methods, and the public attribute [is_outlier]. *)
Inductive op :=
| SetArea (value : pyval)
| SetBounds (value : pyval)
| CallSetBounds (left apex right : pyval)
| CallCropMass (mass_min mass_max : pyval)
| SetIcMass (value : pyval)
| SetIonAreas (value : pyval)
| CallMakeUID
| SetMassSpectrum (value : pyval)
| CallNullMass (mass : pyval)
| CallSetIonArea (ion area : pyval)
| CallFindMassSpectrum (data : IntensityMatrix + pyval) (from_bounds : pyval)
| SetIsOutlier (value : pyval).

(** The state an operation leaves, whether it returns or raises. *)
Definition exec {setters : MassSpectrum_setters} (o : op) (self : Peak) : Peak :=
  match o with
  | SetArea v => fst (set_area v self)
  | SetBounds v => fst (set_bounds_attr v self)
  | CallSetBounds l a r => fst (set_bounds l a r self)
  | CallCropMass a b => fst (crop_mass a b self)
  | SetIcMass v => fst (set_ic_mass v self)
  | SetIonAreas v => fst (set_ion_areas v self)
  | CallMakeUID => fst (make_UID self)
  | SetMassSpectrum v => fst (set_mass_spectrum v self)
  | CallNullMass m => fst (null_mass m self)
  | CallSetIonArea i a => fst (set_ion_area i a self)
  | CallFindMassSpectrum d b => fst (find_mass_spectrum d b self)
  | SetIsOutlier v => with_is_outlier v self
  end.

(** The peaks that exist: constructed, then operated upon. *)
Inductive reachable {setters : MassSpectrum_setters} : Peak -> Prop :=
| reach_init rt ms minutes outlier p :
    Peak_init rt ms minutes outlier = Ok p -> reachable p
| reach_exec o p :
    reachable p -> reachable (exec o p).

Definition no_nan (l : list num) : Prop :=
  Forall (fun x => PyNum.is_nan x = false) l.

(** Ascending by intensity, and by mass where the intensities are equal. *)
Definition ascending (a b : num * num) : Prop :=
  PyNum.lt (fst a) (fst b) = true
  \/ (PyNum.eq (fst a) (fst b) = true /\ PyNum.le (snd a) (snd b) = true).

(** [abs(m - mass)] for each [m] of a mass list, in the order of the list. *)
Fixpoint abs_diffs (mass : num) (ml : list num) : result (list num) :=
  match ml with
  | [] => Ok []
  | m :: ml' =>
      (d <-- PyNum.sub m mass ;
       ds <-- abs_diffs mass ml' ;
       Ok (PyNum.abs d :: ds))%res
  end.

(** The loop of [null_mass] over the differences already computed. *)
Fixpoint nearest_scan (ds : list num) (ii : nat) (best : num) (ix : nat) : nat :=
  match ds with
  | [] => ix
  | d :: ds' =>
      if PyNum.lt d best
      then nearest_scan ds' (S ii) d ii
      else nearest_scan ds' (S ii) best ix
  end.

(** [r] does not raise a [ZeroDivisionError]. *)
Definition no_zero_division {A} (r : result A) : Prop :=
  match r with
  | Ok _ => True
  | Raise e => exn_type e <> ZeroDivisionError
  end.

(** [m] leaves a state in [P] when it starts from one, whether it returns
    or raises. *)
Definition preserves (P : Peak -> Prop) {A} (m : M A) : Prop :=
  forall self, P self -> P (fst (m self)).

(** In a list sorted by [less], no element is followed by one that is less
    than it. *)
Definition not_after {A} (less : A -> A -> bool) (a b : A) : Prop :=
  less b a = false.

Definition pair_no_nan (a : num * num) : Prop :=
  PyNum.is_nan (fst a) = false /\ PyNum.is_nan (snd a) = false.

(** ** Test data *)

Definition ints (l : list Z) : list num := map NInt l.

Definition zero : float := PyNum.dyadic 0 0.

(** A peak at retention time 0 that holds the spectrum [ms], with the UID
    [uid]. *)
Definition peak_of (ms : MassSpectrum) (uid : string) : Peak :=
  mkPeak (PBool false) zero None None [] (Some ms) PNone uid.

Definition ms_50_60_70 : MassSpectrum := mkMS (ints [50; 60; 70]) (ints [1; 5; 3]).
Definition ms_no_signal : MassSpectrum := mkMS (ints [50; 60]) (ints [0; 0]).
Definition ms_50_100 : MassSpectrum := mkMS (ints [50; 100]) (ints [1; 2]).
Definition ms_descending : MassSpectrum := mkMS (ints [50; 60; 70]) (ints [5; 3; 1]).
Definition ms_one_signal : MassSpectrum := mkMS (ints [50; 60]) (ints [5; 0]).
Definition ms_negative : MassSpectrum := mkMS (ints [-10; -1]) (ints [5; 7]).

(** [Peak(12.25, MassSpectrum([50, 60, 70], [1, 5, 3]))] *)
Definition peak_60_50 : Peak :=
  mkPeak (PBool false) (PyNum.dyadic 49 (-2)) None None [] (Some ms_50_60_70) PNone
         "60-50-20-12.25".

(** [Peak(0.0, MassSpectrum([50, 100], [1, 2]))] *)
Definition peak_50_100 : Peak := peak_of ms_50_100 "100-50-50-0.00".

(** [Peak(0.0, MassSpectrum([50, 60], [5, 0]))] *)
Definition peak_one_signal : Peak := peak_of ms_one_signal "50-50-100-0.00".

(** [Peak(0.0, MassSpectrum([-10, -1], [5, 7]))] *)
Definition peak_negative : Peak := peak_of ms_negative "-1--10-71-0.00".

(** [Peak(0.0, MassSpectrum([50, 60, 70], [5, 3, 1]))] *)
Definition peak_descending : Peak := peak_of ms_descending "50-50-100-0.00".

(** [peak_one_signal] once its intensity at mass 50 is set to 0. *)
Definition peak_no_signal : Peak := peak_of ms_no_signal "50-50-100-0.00".

(** Two of the ways in which a [MassSpectrum] may take the empty list: it
    stores it as it stores any other list, or it raises and keeps the list
    that it holds. *)
Definition storing_setters : MassSpectrum_setters :=
  {| set_empty_mass_list ms := (mkMS [] (mass_spec ms), Ok tt);
     set_empty_mass_spec ms := (mkMS (mass_list ms) [], Ok tt) |}.

Definition refusing_setters : MassSpectrum_setters :=
  {| set_empty_mass_list ms := (ms, Raise (Exn IndexError "list index out of range"));
     set_empty_mass_spec ms := (ms, Raise (Exn IndexError "list index out of range")) |}.

(** ** The getters and the read-only methods *)

(** A number as a value. *)
Definition of_num (n : num) : pyval :=
  match n with
  | PyNum.NInt z => PInt z
  | PyNum.NFloat f => PFloat f
  end.

(** [d[ion]] for a number [ion]: the value at the first key equal to it, if
    there is one.  A key that is not a number is not equal to a number. *)
Fixpoint dict_get_num (d : list (pyval * pyval)) (ion : num) : option pyval :=
  match d with
  | [] => None
  | (k, v) :: d' =>
      if match as_num k with Some n => PyNum.eq n ion | None => false end
      then Some v
      else dict_get_num d' ion
  end.

(** [Peak.get_ion_area(ion)] for a number [ion]; [None] is Python's [None],
    returned where the look-up raises [KeyError]. *)
Definition get_ion_area (ion : num) (self : Peak) : option pyval :=
  dict_get_num (_ion_areas self) ion.

(** [Peak.ion_areas] read: the copy is the mapping itself, by value. *)
Definition ion_areas (self : Peak) : result (list (pyval * pyval)) :=
  match _ion_areas self with
  | [] => Raise (Exn ValueError "no ion areas set")
  | d => Ok d
  end.

(** [l.index(x)] for a list of numbers and a number: the first index of an
    element equal to [x], [None] where Python raises [ValueError]. *)
Fixpoint list_index (l : list num) (x : num) : option nat :=
  match l with
  | [] => None
  | y :: l' => if PyNum.eq y x then Some 0%nat else option_map S (list_index l' x)
  end.

(** [Peak.get_int_of_ion(ion)] for a number [ion].  The handler of the
    [ValueError] of [index] and of the [IndexError] of the subscript builds
    its message from [min(mass_list)] and [max(mass_list)]. *)
Definition get_int_of_ion (ion : num) (self : Peak) : result num :=
  match _mass_spectrum self with
  | None => Raise (Exn ValueError "Cannot use 'get_int_of_ion' with a single ion peak.")
  | Some ms =>
      match
        match list_index (mass_list ms) ion with
        | Some i => nth_error (mass_spec ms) i
        | None => None
        end
      with
      | Some intensity => Ok intensity
      | None =>
          (_ <-- py_min (mass_list ms) ;
           _ <-- py_max (mass_list ms) ;
           Raise (Exn IndexError "'ion' out of range of mass spectrum"))%res
      end
  end.

(** ** [_make_executable] of [doc-source/pandoc_downloader.py] *)

(** The mode that [_make_executable] passes to [os.chmod], from the
    [st_mode] that [os.stat] gives: [mode | ((mode & 0o444) >> 2)]. *)
Definition executable_mode (mode : Z) : Z :=
  Z.lor mode (Z.shiftr (Z.land mode 292) 2).

(** ** More notions used by the statements *)

(** An operation as a method, its value forgotten. *)
Definition forget {A} (m : M A) : M unit :=
  fun self =>
    match m self with
    | (self', Ok _) => (self', Ok tt)
    | (self', Raise e) => (self', Raise e)
    end.

Definition run {setters : MassSpectrum_setters} (o : op) : M unit :=
  match o with
  | SetArea v => set_area v
  | SetBounds v => set_bounds_attr v
  | CallSetBounds l a r => set_bounds l a r
  | CallCropMass a b => forget (crop_mass a b)
  | SetIcMass v => set_ic_mass v
  | SetIonAreas v => set_ion_areas v
  | CallMakeUID => make_UID
  | SetMassSpectrum v => set_mass_spectrum v
  | CallNullMass m => null_mass m
  | CallSetIonArea i a => set_ion_area i a
  | CallFindMassSpectrum d b => find_mass_spectrum d b
  | SetIsOutlier v => assign (with_is_outlier v)
  end.

(** The peaks that a program reaches when none of its operations raises. *)
Inductive reachable_ok {setters : MassSpectrum_setters} : Peak -> Prop :=
| reach_ok_init rt ms minutes outlier p :
    Peak_init rt ms minutes outlier = Ok p -> reachable_ok p
| reach_ok_run o p p' :
    reachable_ok p -> run o p = (p', Ok tt) -> reachable_ok p'.

(** The UID is the one that [make_UID] computes from the state. *)
Definition consistent (p : Peak) : Prop := compute_UID p = Ok (_UID p).

(** The area, when set, is a number that is not [<= 0]. *)
Definition area_ok (p : Peak) : Prop :=
  match _area p with
  | Some v => exists n, as_num v = Some n /\ PyNum.le n (NInt 0) = false
  | None => True
  end.

(** The bounds, when set, are three [int]s. *)
Definition bounds_ok (p : Peak) : Prop :=
  match _pt_bounds p with
  | Some (l, a, r) => is_int l = true /\ is_int a = true /\ is_int r = true
  | None => True
  end.

(** The first key of the ion areas, when there is one, is a number. *)
Definition ion_areas_ok (p : Peak) : Prop :=
  match _ion_areas p with
  | (k, _) :: _ => is_number k = true
  | [] => True
  end.

(** The test of the loop of [crop_mass], on a pair of a mass and its
    intensity. *)
Definition in_range (lo hi : num) (p : num * num) : bool :=
  PyNum.le lo (fst p) && PyNum.le (fst p) hi.

(** Each number is less than the next. *)
Definition increasing (l : list num) : Prop :=
  Sorted (fun a b => PyNum.lt a b = true) l.

(** [x] is the number at index [i] of [l], it is positive, no number of [l]
    is greater, and none before index [i] is equal to it: [i] is the index
    of the first largest number of [l]. *)
Definition first_largest (l : list num) (i : nat) (x : num) : Prop :=
  nth_error l i = Some x
  /\ PyNum.gt x (NInt 0) = true
  /\ Forall (fun y => PyNum.gt y x = false) l
  /\ forall k y, (k < i)%nat -> nth_error l k = Some y -> PyNum.eq y x = false.

(** [int(l[i])] *)
Definition int_at (l : list num) (i : nat) : result Z :=
  (m <-- index l i ; PyNum.to_int m)%res.

(** [int(100 * x / best)] *)
Definition percent (x best : num) : result Z :=
  (hundred_x <-- PyNum.mul (NInt 100) x ;
   q <-- PyNum.truediv hundred_x best ;
   PyNum.to_int q)%res.

(** * Properties *)

(** ** The order of numbers *)

Module NumOrder.
Import PyNum.

Ltac qcases :=
  repeat match goal with
         | H : context [Qcompare ?p ?q] |- _ => destruct (Qcompare_spec p q)
         | |- context [Qcompare ?p ?q] => destruct (Qcompare_spec p q)
         end.

Ltac by_exact_value :=
  unfold lt, gt, le, ge, eq, is_nan, compare in *;
  repeat match goal with
         | |- context [exact ?a] => destruct (exact a)
         | H : context [exact ?a] |- _ => destruct (exact a)
         end;
  simpl in *; try congruence; qcases; try congruence; try lra.

Lemma gt_lt a b : gt a b = lt b a.
Proof. by_exact_value. Qed.

Lemma ge_le a b : ge a b = le b a.
Proof. by_exact_value. Qed.

Lemma lt_irrefl a : lt a a = false.
Proof. by_exact_value. Qed.

Lemma lt_asym a b : lt a b = true -> lt b a = false.
Proof. by_exact_value. Qed.

Lemma lt_trans a b c : lt a b = true -> lt b c = true -> lt a c = true.
Proof. by_exact_value. Qed.

Lemma lt_not_eq a b : lt a b = true -> eq a b = false.
Proof. by_exact_value. Qed.

Lemma eq_sym a b : eq a b = eq b a.
Proof. by_exact_value. Qed.

Lemma eq_trans a b c : eq a b = true -> eq b c = true -> eq a c = true.
Proof. by_exact_value. Qed.

Lemma eq_lt_trans a b c : eq a b = true -> lt b c = true -> lt a c = true.
Proof. by_exact_value. Qed.

Lemma lt_eq_trans a b c : lt a b = true -> eq b c = true -> lt a c = true.
Proof. by_exact_value. Qed.

Lemma le_lt_or_eq a b : le a b = lt a b || eq a b.
Proof. by_exact_value. Qed.

Lemma le_not_lt a b : le a b = true -> lt b a = false.
Proof. by_exact_value. Qed.

Lemma not_lt_le a b :
  is_nan a = false -> is_nan b = false -> lt a b = false -> le b a = true.
Proof. by_exact_value. Qed.

Lemma lt_le_trans a b c : lt a b = true -> le b c = true -> lt a c = true.
Proof. by_exact_value. Qed.

Lemma lt_not_nan a b : lt a b = true -> is_nan a = false /\ is_nan b = false.
Proof. by_exact_value; auto. Qed.

Lemma eq_not_nan a b : eq a b = true -> is_nan a = false /\ is_nan b = false.
Proof. by_exact_value; auto. Qed.

Lemma not_lt_not_eq a b :
  is_nan a = false -> is_nan b = false -> lt a b = false -> eq a b = false -> lt b a = true.
Proof. by_exact_value. Qed.

Lemma int_not_nan z : is_nan (NInt z) = false.
Proof. reflexivity. Qed.

Lemma lt_zero_int z : lt (NInt 0) (NInt z) = true -> z <> 0.
Proof. intros H ->. discriminate. Qed.
End NumOrder.

(** ** [float(z)] is not zero unless [z] is *)

Module FloatFacts.
Import PyNum.

Lemma digits2_pos_lower p : 2 ^ (Zpos (digits2_pos p) - 1) <= Zpos p.
Proof.
  induction p as [p IH | p IH | ]; simpl digits2_pos.
  - rewrite Pos2Z.inj_succ.
    replace (Z.succ (Zpos (digits2_pos p)) - 1) with (Z.succ (Zpos (digits2_pos p) - 1)) by lia.
    rewrite Z.pow_succ_r by lia. lia.
  - rewrite Pos2Z.inj_succ.
    replace (Z.succ (Zpos (digits2_pos p)) - 1) with (Z.succ (Zpos (digits2_pos p) - 1)) by lia.
    rewrite Z.pow_succ_r by lia. lia.
  - simpl. lia.
Qed.

Lemma shr_1_m mrs : 0 <= shr_m mrs -> shr_m (shr_1 mrs) = shr_m mrs / 2.
Proof.
  destruct mrs as [m r s]; cbn [shr_m]. intros Hm.
  destruct m as [ | [p | p | ] | p ]; cbn [shr_1 shr_m]; try lia.
  - reflexivity.
  - apply Z.div_unique with 1; lia.
  - apply Z.div_unique with 0; lia.
  - reflexivity.
Qed.

Lemma iter_shr_1_m p : forall mrs,
  0 <= shr_m mrs -> shr_m (iter_pos shr_1 p mrs) = shr_m mrs / 2 ^ Zpos p.
Proof.
  assert (Hnn : forall mrs, 0 <= shr_m mrs -> 0 <= shr_m mrs / 2)
    by (intros; apply Z.div_pos; lia).
  induction p as [p IH | p IH | ]; intros mrs Hm; simpl iter_pos.
  - assert (H1 : 0 <= shr_m (shr_1 mrs)) by (rewrite shr_1_m; auto).
    assert (H2 : 0 <= shr_m (iter_pos shr_1 p (shr_1 mrs))).
    { rewrite IH by auto. apply Z.div_pos; lia. }
    rewrite IH, IH, shr_1_m by auto.
    rewrite !Z.div_div by lia.
    replace (2 ^ Zpos p~1) with (2 * (2 ^ Zpos p * 2 ^ Zpos p)); [ reflexivity | ].
    replace (Zpos p~1) with (1 + (Zpos p + Zpos p)) by lia.
    rewrite !Z.pow_add_r by lia. reflexivity.
  - assert (H2 : 0 <= shr_m (iter_pos shr_1 p mrs)).
    { rewrite IH by auto. apply Z.div_pos; lia. }
    rewrite IH, IH by auto.
    rewrite !Z.div_div by lia.
    replace (2 ^ Zpos p~0) with (2 ^ Zpos p * 2 ^ Zpos p); [ reflexivity | ].
    replace (Zpos p~0) with (Zpos p + Zpos p) by lia.
    rewrite Z.pow_add_r by lia. reflexivity.
  - rewrite shr_1_m by auto. reflexivity.
Qed.

Lemma shr_fexp_pos m e l :
  emin prec emax <= e ->
  0 < shr_m (fst (shr_fexp prec emax (Zpos m) e l))
  /\ emin prec emax <= snd (shr_fexp prec emax (Zpos m) e l).
Proof.
  intros He. unfold shr_fexp, shr.
  set (d := Zpos (digits2_pos m)). simpl Zdigits2. fold d.
  destruct (fexp prec emax (d + e) - e) as [ | n | n ] eqn:Hn; simpl fst; simpl snd.
  - destruct l as [ | [ | | ] ]; simpl; lia.
  - split; [ | lia ].
    rewrite iter_shr_1_m by (destruct l as [ | [ | | ] ]; simpl; lia).
    assert (Hm : shr_m (shr_record_of_loc (Zpos m) l) = Zpos m)
      by (destruct l as [ | [ | | ] ]; reflexivity).
    rewrite Hm.
    assert (Hle : Zpos n <= d - 1).
    { unfold fexp, emin, prec, emax in *. lia. }
    assert (2 ^ Zpos n <= Zpos m).
    { transitivity (2 ^ (d - 1)); [ apply Z.pow_le_mono_r; lia | apply digits2_pos_lower ]. }
    apply Z.div_str_pos. lia.
  - destruct l as [ | [ | | ] ]; simpl; lia.
Qed.

Lemma binary_round_aux_nonzero s m e l :
  emin prec emax <= e ->
  float_is_zero (binary_round_aux prec emax s (Zpos m) e l) = false.
Proof.
  intros He. unfold binary_round_aux.
  destruct (shr_fexp_pos m e l He) as [Hm1 He1].
  destruct (shr_fexp prec emax (Zpos m) e l) as [mrs' e'].
  simpl fst in *; simpl snd in *.
  set (m1 := round_nearest_even (shr_m mrs') (loc_of_shr_record mrs')).
  assert (H1 : 0 < m1).
  { unfold m1, round_nearest_even.
    destruct (loc_of_shr_record mrs') as [ | [ | | ] ]; try lia.
    destruct (Z.even (shr_m mrs')); lia. }
  destruct m1 as [ | m1 | m1 ]; try lia.
  destruct (shr_fexp_pos m1 e' loc_Exact He1) as [Hm2 _].
  destruct (shr_fexp prec emax (Zpos m1) e' loc_Exact) as [mrs'' e''].
  simpl fst in *.
  destruct (shr_m mrs''); try lia.
  destruct (e'' <=? emax - prec); reflexivity.
Qed.

Lemma binary_round_nonzero s m e :
  emin prec emax <= e ->
  float_is_zero (binary_round prec emax s m e) = false.
Proof.
  intros He. unfold binary_round, shl_align.
  set (e' := fexp prec emax (Zpos (digits2_pos m) + e)).
  assert (emin prec emax <= e') by (unfold e', fexp; lia).
  destruct (e' - e); apply binary_round_aux_nonzero; assumption.
Qed.

(** [float(z)] is zero only for [z = 0]. *)
Lemma float_of_int_nonzero z f :
  z <> 0 -> float_of_int z = Ok f -> float_is_zero f = false.
Proof.
  intros Hz. unfold float_of_int, binary_normalize.
  destruct z as [ | m | m ]; [ congruence | | ].
  - pose proof (binary_round_nonzero false m 0) as Hnz.
    destruct (binary_round prec emax false m 0); intros [= <-];
      apply Hnz; unfold emin, prec, emax; lia.
  - pose proof (binary_round_nonzero true m 0) as Hnz.
    destruct (binary_round prec emax true m 0); intros [= <-];
      apply Hnz; unfold emin, prec, emax; lia.
Qed.
End FloatFacts.

(** ** [make_UID] *)

Lemma with_UID_same self : with_UID (_UID self) self = self.
Proof. destruct self; reflexivity. Qed.

Lemma make_UID_spec self :
  make_UID self =
  match compute_UID self with
  | Ok u => (with_UID u self, Ok tt)
  | Raise e => (self, Raise e)
  end.
Proof.
  unfold make_UID, compute_UID, bind, get, lift, assign.
  destruct (_mass_spectrum self) as [ms | ].
  - destruct (spectrum_UID ms (_rt self)); reflexivity.
  - destruct (_ic_mass self); try reflexivity;
      match goal with |- context [ion_UID ?v ?r] => destruct (ion_UID v r) end;
      reflexivity.
Qed.

(** [make_UID] assigns to [_UID] only. *)
Lemma make_UID_frame self : exists u, fst (make_UID self) = with_UID u self.
Proof.
  rewrite make_UID_spec. destruct (compute_UID self) as [u | e].
  - exists u. reflexivity.
  - exists (_UID self). symmetry. apply with_UID_same.
Qed.

(** *** The scan of [make_UID] *)

Lemma uid_scan_best_pos l : forall ii best best_ii best2_ii,
  PyNum.is_nan best = false ->
  PyNum.gt best (NInt 0) = true \/ Exists (fun x => PyNum.gt x (NInt 0) = true) l ->
  PyNum.gt (fst (fst (uid_scan l ii best best_ii best2_ii))) (NInt 0) = true.
Proof.
  induction l as [ | x l IH ]; intros ii best bi b2 Hnan H; simpl.
  - destruct H as [H | H]; [ assumption | inversion H ].
  - destruct (PyNum.gt x best) eqn:Hx.
    + rewrite NumOrder.gt_lt in Hx.
      apply IH; [ apply (NumOrder.lt_not_nan _ _ Hx) | ].
      destruct H as [H | H].
      * left. rewrite NumOrder.gt_lt in *. eapply NumOrder.lt_trans; eassumption.
      * inversion H; subst; auto.
    + apply IH; [ assumption | ].
      destruct H as [H | H]; [ auto | ].
      inversion H as [? ? Hpos | ]; subst; [ left | auto ].
      rewrite NumOrder.gt_lt in *.
      eapply NumOrder.lt_le_trans; [ eassumption | ].
      apply NumOrder.not_lt_le; auto.
      apply (NumOrder.lt_not_nan _ _ Hpos).
Qed.

Lemma uid_scan_none l : forall ii best best_ii best2_ii,
  Forall (fun x => PyNum.gt x best = false) l ->
  uid_scan l ii best best_ii best2_ii = (best, best_ii, best2_ii).
Proof.
  induction l as [ | x l IH ]; intros ii best bi b2 H; simpl; [ reflexivity | ].
  inversion H as [ | ? ? Hx Hl ]; subst. rewrite Hx. apply IH. assumption.
Qed.

(** *** Which exceptions the arithmetic raises *)

Lemma rbind_no_zero_division {A B} (r : result A) (k : A -> result B) :
  no_zero_division r -> (forall a, r = Ok a -> no_zero_division (k a)) ->
  no_zero_division (rbind r k).
Proof. destruct r; simpl; auto. Qed.

Lemma index_no_zero_division {A} (l : list A) i : no_zero_division (index l i).
Proof. unfold index. destruct (nth_error l i); simpl; [ exact I | discriminate ]. Qed.

Lemma to_float_no_zero_division a : no_zero_division (PyNum.to_float a).
Proof.
  destruct a as [z | f]; simpl; [ | exact I ].
  unfold PyNum.float_of_int.
  destruct (binary_normalize _ _ _ _ _); simpl; try exact I; discriminate.
Qed.

Lemma to_int_no_zero_division a : no_zero_division (PyNum.to_int a).
Proof.
  destruct a as [z | f]; simpl; [ exact I | ].
  destruct f; simpl; try exact I; discriminate.
Qed.

Lemma mul_no_zero_division a b : no_zero_division (PyNum.mul a b).
Proof.
  unfold PyNum.mul, PyNum.arith.
  destruct a, b; try exact I;
    (apply rbind_no_zero_division; [ apply to_float_no_zero_division | intros ? _ ];
     apply rbind_no_zero_division; [ apply to_float_no_zero_division | intros ? _ ];
     exact I).
Qed.

Lemma positive_to_float_nonzero b f :
  PyNum.gt b (NInt 0) = true -> PyNum.to_float b = Ok f -> PyNum.float_is_zero f = false.
Proof.
  intros Hb Hf. destruct b as [z | g]; simpl in Hf.
  - apply (FloatFacts.float_of_int_nonzero z); [ | assumption ].
    intros ->. discriminate.
  - injection Hf as <-. destruct g; try reflexivity. discriminate.
Qed.

Lemma truediv_no_zero_division a b :
  PyNum.gt b (NInt 0) = true -> no_zero_division (PyNum.truediv a b).
Proof.
  intros Hb.
  assert (Hmixed : no_zero_division
            (x <-- PyNum.to_float a ; y <-- PyNum.to_float b ;
             if PyNum.float_is_zero y
             then Raise (Exn ZeroDivisionError "float division by zero")
             else Ok (NFloat (SFdiv PyNum.prec PyNum.emax x y)))%res).
  { apply rbind_no_zero_division; [ apply to_float_no_zero_division | intros x _ ].
    apply rbind_no_zero_division; [ apply to_float_no_zero_division | intros y Hy ].
    rewrite (positive_to_float_nonzero b y Hb Hy). exact I. }
  unfold PyNum.truediv. destruct a as [x | x], b as [y | y]; try exact Hmixed.
  destruct (Z.eqb_spec y 0) as [-> | _]; [ discriminate | ].
  destruct (SFdiv _ _ _ _); simpl; try exact I; discriminate.
Qed.

Lemma truediv_by_int_zero a :
  exists msg, PyNum.truediv a (NInt 0) = Raise (Exn ZeroDivisionError msg).
Proof.
  destruct a as [x | f]; simpl.
  - eexists; reflexivity.
  - eexists; reflexivity.
Qed.

Lemma mul_100_ok x : exists y, PyNum.mul (NInt 100) x = Ok y.
Proof. destruct x; eexists; reflexivity. Qed.

Lemma spectrum_UID_no_zero_division ms rt :
  Exists (fun x => PyNum.gt x (NInt 0) = true) (mass_spec ms) ->
  no_zero_division (spectrum_UID ms rt).
Proof.
  intros Hpos. unfold spectrum_UID.
  pose proof (uid_scan_best_pos (mass_spec ms) 0 (NInt 0) 0 0 eq_refl (or_intror Hpos)) as Hbest.
  destruct (uid_scan (mass_spec ms) 0 (NInt 0) 0 0) as [[best best_ii] best2_ii].
  simpl in Hbest.
  repeat (apply rbind_no_zero_division;
          [ first [ apply index_no_zero_division | apply mul_no_zero_division
                  | apply to_int_no_zero_division
                  | apply truediv_no_zero_division; assumption ]
          | intros ? _ ]).
  exact I.
Qed.

Lemma spectrum_UID_zero_division ms rt :
  Forall (fun x => PyNum.le x (NInt 0) = true) (mass_spec ms) ->
  Exists (fun x => PyNum.eq x (NInt 0) = true) (mass_spec ms) ->
  exists msg, spectrum_UID ms rt = Raise (Exn ZeroDivisionError msg).
Proof.
  intros Hle Hex. unfold spectrum_UID.
  rewrite uid_scan_none.
  2:{ eapply Forall_impl; [ | exact Hle ]. intros x Hx.
      rewrite NumOrder.gt_lt. apply NumOrder.le_not_lt. exact Hx. }
  destruct (mass_spec ms) as [ | x l ]; [ inversion Hex | ].
  unfold index. cbn [nth_error rbind].
  destruct (mul_100_ok x) as [y ->]. cbn [rbind].
  destruct (truediv_by_int_zero y) as [msg ->]. exists msg. reflexivity.
Qed.

(** C4.  On a peak with a mass spectrum, [make_UID] does not divide by zero
    when some intensity is strictly positive: the running [best] is then
    strictly positive where the ratio is computed, and whatever [make_UID]
    raises is not a [ZeroDivisionError].  When the largest intensity is
    exactly 0 (every intensity is at most 0 and one equals 0), [make_UID]
    raises [ZeroDivisionError] and leaves the peak as it was. *)
Theorem make_UID_division_by_zero (self : Peak) (ms : MassSpectrum) :
  _mass_spectrum self = Some ms ->
  (Exists (fun x => PyNum.gt x (NInt 0) = true) (mass_spec ms) ->
   PyNum.gt (fst (fst (uid_scan (mass_spec ms) 0 (NInt 0) 0 0))) (NInt 0) = true
   /\ forall self' e, make_UID self = (self', Raise e) -> exn_type e <> ZeroDivisionError)
  /\ (Forall (fun x => PyNum.le x (NInt 0) = true) (mass_spec ms) ->
      Exists (fun x => PyNum.eq x (NInt 0) = true) (mass_spec ms) ->
      exists msg, make_UID self = (self, Raise (Exn ZeroDivisionError msg))).
Proof.
  intros Hms. split.
  - intros Hpos. split.
    + apply uid_scan_best_pos; [ reflexivity | right; assumption ].
    + intros self' e. rewrite make_UID_spec. unfold compute_UID. rewrite Hms.
      pose proof (spectrum_UID_no_zero_division ms (_rt self) Hpos) as Hnz.
      destruct (spectrum_UID ms (_rt self)); [ discriminate | ].
      intros [= _ <-]. exact Hnz.
  - intros Hle Hex. rewrite make_UID_spec. unfold compute_UID. rewrite Hms.
    destruct (spectrum_UID_zero_division ms (_rt self) Hle Hex) as [msg ->].
    exists msg. reflexivity.
Qed.

Lemma make_UID_division_by_zero_witness :
  (forall self' e, make_UID peak_60_50 = (self', Raise e) ->
                   exn_type e <> ZeroDivisionError)
  /\ exists msg,
      make_UID peak_no_signal = (peak_no_signal, Raise (Exn ZeroDivisionError msg)).
Proof.
  split.
  - apply (make_UID_division_by_zero peak_60_50 ms_50_60_70 eq_refl).
    apply Exists_cons_hd. reflexivity.
  - apply (make_UID_division_by_zero peak_no_signal ms_no_signal eq_refl).
    + repeat constructor.
    + apply Exists_cons_hd. reflexivity.
Defined.

Lemma compute_UID_with_UID u self : compute_UID (with_UID u self) = compute_UID self.
Proof. reflexivity. Qed.

(** C7.  The UID is a function of the retention time and the mass spectrum,
    or of the retention time and the single ion mass when there is no
    spectrum: a peak [q] that agrees with [p] on these gets the UID that [p]
    gets, whatever its other attributes and its former UID are.  And
    [make_UID] is idempotent: called again on the peak it has left, it
    leaves the same peak, with the same UID. *)
Theorem UID_deterministic (p q p' : Peak) :
  _rt p = _rt q ->
  _mass_spectrum p = _mass_spectrum q ->
  (_mass_spectrum p = None -> _ic_mass p = _ic_mass q) ->
  make_UID p = (p', Ok tt) ->
  make_UID q = (with_UID (_UID p') q, Ok tt) /\ make_UID p' = (p', Ok tt).
Proof.
  intros Hrt Hms Hic. rewrite !make_UID_spec.
  assert (Hq : compute_UID q = compute_UID p).
  { unfold compute_UID. rewrite <- Hms, <- Hrt.
    destruct (_mass_spectrum p); [ reflexivity | ].
    rewrite <- Hic; reflexivity. }
  rewrite Hq. destruct (compute_UID p) as [u | e] eqn:Hu; [ | discriminate ].
  intros [= <-]. rewrite compute_UID_with_UID, Hu. split; reflexivity.
Qed.

Lemma UID_deterministic_witness :
  make_UID (with_area (Some (PInt 7)) (with_UID "" peak_60_50))
  = (with_UID "60-50-20-12.25" (with_area (Some (PInt 7)) (with_UID "" peak_60_50)),
     Ok tt)
  /\ make_UID peak_60_50 = (peak_60_50, Ok tt).
Proof.
  apply (UID_deterministic peak_60_50
           (with_area (Some (PInt 7)) (with_UID "" peak_60_50)) peak_60_50);
    reflexivity.
Defined.

(** ** Invariants of the methods *)

Section Preserves.
Variable P : Peak -> Prop.

Lemma preserves_ret {A} (a : A) : preserves P (ret a).
Proof. intros self H. exact H. Qed.

Lemma preserves_raise {A} c msg : preserves P (@raise A c msg).
Proof. intros self H. exact H. Qed.

Lemma preserves_lift {A} (r : result A) : preserves P (lift r).
Proof. intros self H. exact H. Qed.

Lemma preserves_get {A} (f : Peak -> A) : preserves P (get f).
Proof. intros self H. exact H. Qed.

Lemma preserves_raise_if b c msg : preserves P (raise_if b c msg).
Proof. intros self H. destruct b; exact H. Qed.

Lemma preserves_assign f : (forall self, P self -> P (f self)) -> preserves P (assign f).
Proof. intros Hf self H. apply Hf, H. Qed.

Lemma preserves_bind {A B} (m : M A) (k : A -> M B) :
  preserves P m -> (forall a, preserves P (k a)) -> preserves P (bind m k).
Proof.
  intros Hm Hk self H. unfold bind.
  specialize (Hm self H). destruct (m self) as [self' [a | e]]; simpl in Hm.
  - apply Hk, Hm.
  - exact Hm.
Qed.

Hypothesis P_with_UID : forall u self, P self -> P (with_UID u self).

Lemma preserves_make_UID : preserves P make_UID.
Proof.
  intros self H. destruct (make_UID_frame self) as [u ->]. apply P_with_UID, H.
Qed.
End Preserves.

Ltac preserves_step :=
  first [ apply preserves_ret | apply preserves_raise | apply preserves_lift
        | apply preserves_get | apply preserves_raise_if
        | apply preserves_make_UID
        | apply preserves_bind; [ | intros ? ] ].

(** ** Mutual exclusion of the mass spectrum and the single ion mass *)

Lemma exclusive_with_UID u self : exclusive self -> exclusive (with_UID u self).
Proof. exact (fun H => H). Qed.

Lemma exclusive_set_area v : preserves exclusive (set_area v).
Proof.
  unfold set_area. destruct (as_num v); repeat preserves_step.
  apply preserves_assign. exact (fun _ H => H).
Qed.

Lemma exclusive_set_bounds_attr v : preserves exclusive (set_bounds_attr v).
Proof.
  unfold set_bounds_attr.
  destruct (is_sequence v) as [[ | l [ | a [ | r [ | ? ? ]]]] | ]; repeat preserves_step.
  apply preserves_assign. exact (fun _ H => H).
Qed.

Lemma exclusive_set_ion_areas v : preserves exclusive (set_ion_areas v).
Proof.
  unfold set_ion_areas. destruct v; repeat preserves_step.
  apply preserves_assign. exact (fun _ H => H).
Qed.

Lemma exclusive_set_ion_area ion area : preserves exclusive (set_ion_area ion area).
Proof.
  unfold set_ion_area. destruct (as_int ion); repeat preserves_step.
  apply preserves_assign. exact (fun _ H => H).
Qed.

Lemma exclusive_on_spectrum f : preserves exclusive (on_spectrum f).
Proof.
  intros self [H | H]; unfold on_spectrum.
  - rewrite H. left. exact H.
  - destruct (_mass_spectrum self) as [ms | ]; [ destruct (f ms) | ]; right; exact H.
Qed.

Lemma exclusive_assign_mass_spec l : preserves exclusive (assign_mass_spec l).
Proof.
  apply preserves_assign. intros self [H | H].
  - rewrite H. left. exact H.
  - destruct (_mass_spectrum self); right; exact H.
Qed.

Lemma exclusive_make_UID : preserves exclusive make_UID.
Proof. apply preserves_make_UID. exact exclusive_with_UID. Qed.

Lemma exclusive_crop_mass {setters : MassSpectrum_setters} a b :
  preserves exclusive (crop_mass a b).
Proof.
  unfold crop_mass. preserves_step; [ preserves_step | ].
  destruct a0 as [ms | ]; [ | preserves_step ].
  destruct (as_num a), (as_num b); try apply preserves_raise.
  repeat (preserves_step; [ first [ preserves_step | apply exclusive_on_spectrum ] | ]).
  match goal with |- context [match fst ?new with _ => _ end] => destruct (fst new) end;
    [ preserves_step | ].
  preserves_step; [ apply exclusive_make_UID | preserves_step ].
Qed.

Lemma exclusive_null_mass m : preserves exclusive (null_mass m).
Proof.
  unfold null_mass. preserves_step; [ preserves_step | ].
  destruct a as [ms | ]; [ | preserves_step ].
  destruct (as_num m); [ | preserves_step ].
  preserves_step; [ preserves_step | ].
  preserves_step.
  { match goal with |- context [if ?c then _ else _] => destruct c end;
      repeat preserves_step. }
  repeat (preserves_step; [ first [ preserves_step | apply exclusive_assign_mass_spec ] | ]).
  apply exclusive_make_UID.
Qed.

(** The three operations that set one of the two attributes clear the
    other in the same breath. *)
Lemma set_ic_mass_state v self :
  fst (set_ic_mass v self) = self
  \/ exists u, fst (set_ic_mass v self)
               = with_UID u (with_mass_spectrum None (with_ic_mass v self)).
Proof.
  unfold set_ic_mass, bind, raise_if, assign, raise, ret.
  destruct (is_number v); simpl; [ | left; reflexivity ].
  right. apply make_UID_frame.
Qed.

Lemma set_mass_spectrum_state v self :
  fst (set_mass_spectrum v self) = self
  \/ exists u ms, v = PMassSpectrum ms
       /\ fst (set_mass_spectrum v self)
          = with_UID u (with_ic_mass PNone (with_mass_spectrum (Some ms) self)).
Proof.
  unfold set_mass_spectrum, bind, assign, raise.
  destruct v; simpl; try (left; reflexivity).
  right. destruct (make_UID_frame (with_ic_mass PNone (with_mass_spectrum (Some ms) self)))
    as [u Hu].
  exists u, ms. split; [ reflexivity | exact Hu ].
Qed.

Lemma find_mass_spectrum_state data from_bounds self :
  fst (find_mass_spectrum data from_bounds self) = self
  \/ exists u ms,
       fst (find_mass_spectrum data from_bounds self)
       = with_UID u (with_ic_mass PNone (with_mass_spectrum (Some ms) self)).
Proof.
  unfold find_mass_spectrum.
  destruct data as [data | other]; [ | left; reflexivity ].
  assert (Hapex : fst (pt_apex data from_bounds self) = self).
  { unfold pt_apex. destruct (truthy from_bounds).
    - unfold bind, get. destruct (_pt_bounds self) as [[[l a] r] | ]; [ | reflexivity ].
      destruct (as_int a); reflexivity.
    - reflexivity. }
  unfold bind, lift, assign.
  destruct (pt_apex data from_bounds self) as [s [apex | e]];
    simpl in Hapex; subst s; [ | left; reflexivity ].
  destruct (get_ms_at_index data apex) as [ms | e]; [ | left; reflexivity ].
  right. simpl.
  destruct (make_UID_frame (with_ic_mass PNone (with_mass_spectrum (Some ms) self)))
    as [u Hu].
  exists u, ms. exact Hu.
Qed.

Lemma exclusive_exec {setters : MassSpectrum_setters} o self :
  exclusive self -> exclusive (exec o self).
Proof.
  intros H. destruct o; simpl.
  - apply exclusive_set_area, H.
  - apply exclusive_set_bounds_attr, H.
  - apply exclusive_set_bounds_attr, H.
  - apply exclusive_crop_mass, H.
  - destruct (set_ic_mass_state value self) as [-> | [u ->]]; [ exact H | left; reflexivity ].
  - apply exclusive_set_ion_areas, H.
  - apply exclusive_make_UID, H.
  - destruct (set_mass_spectrum_state value self) as [-> | [u [ms [_ ->]]]];
      [ exact H | right; reflexivity ].
  - apply exclusive_null_mass, H.
  - apply exclusive_set_ion_area, H.
  - destruct (find_mass_spectrum_state data from_bounds self) as [-> | [u [ms ->]]];
      [ exact H | right; reflexivity ].
  - exact H.
Qed.

Lemma exclusive_Peak_init rt ms minutes outlier p :
  Peak_init rt ms minutes outlier = Ok p -> exclusive p.
Proof.
  unfold Peak_init. destruct (as_num rt) as [rt' | ]; [ | discriminate ].
  destruct (truthy ms && negb (is_MassSpectrum ms) && negb (is_number ms));
    [ discriminate | ].
  destruct (if truthy minutes then _ else _) as [rt1 | ]; [ | discriminate ].
  cbn [rbind]. destruct (PyNum.to_float rt1) as [rtf | ]; [ | discriminate ].
  cbn [rbind].
  match goal with |- context [make_UID ?s] =>
    assert (Hs : exclusive s) by (destruct ms; first [ left; reflexivity | right; reflexivity ]);
    pose proof (exclusive_make_UID s Hs) as Hp;
    destruct (make_UID s) as [s' [ [] | e ]]
  end; [ | discriminate ].
  intros [= <-]. exact Hp.
Qed.

Lemma peak_60_50_init :
  Peak_init (PFloat (PyNum.dyadic 49 (-2))) (PMassSpectrum ms_50_60_70)
            (PBool false) (PBool false) = Ok peak_60_50.
Proof. vm_compute. reflexivity. Qed.

Lemma make_UID_ok self self' :
  make_UID self = (self', Ok tt) -> exists u, self' = with_UID u self.
Proof.
  rewrite make_UID_spec. destruct (compute_UID self) as [u | e]; [ | discriminate ].
  intros [= <-]. exists u. reflexivity.
Qed.

(** C3.  In every peak that the constructor returns and in every state
    that the operations of [op] lead to from there, whether they return or
    raise, at most one of the mass spectrum and the single ion mass is set.
    The [ic_mass] setter clears the mass spectrum, and the [mass_spectrum]
    setter and [find_mass_spectrum] clear the single ion mass. *)
Theorem mutual_exclusion {setters : MassSpectrum_setters} (p : Peak) :
  reachable p ->
  exclusive p
  /\ (forall v p', set_ic_mass v p = (p', Ok tt) ->
        _ic_mass p' = v /\ _mass_spectrum p' = None)
  /\ (forall v p', set_mass_spectrum v p = (p', Ok tt) ->
        exists ms, v = PMassSpectrum ms
                   /\ _mass_spectrum p' = Some ms /\ _ic_mass p' = PNone)
  /\ (forall data from_bounds p',
        find_mass_spectrum data from_bounds p = (p', Ok tt) ->
        _mass_spectrum p' <> None /\ _ic_mass p' = PNone).
Proof.
  intros Hp. split; [ | split; [ | split ] ].
  - induction Hp as [rt ms minutes outlier p Hinit | o p _ IH].
    + exact (exclusive_Peak_init _ _ _ _ _ Hinit).
    + apply exclusive_exec, IH.
  - intros v p'. unfold set_ic_mass, bind, raise_if, assign, raise, ret.
    destruct (is_number v); [ | discriminate ].
    intros H. destruct (make_UID_ok _ _ H) as [u ->]. split; reflexivity.
  - intros v p'. unfold set_mass_spectrum, bind, assign, raise.
    destruct v; try discriminate.
    intros H. destruct (make_UID_ok _ _ H) as [u ->]. exists ms. repeat split.
  - intros data from_bounds p'. unfold find_mass_spectrum, bind, lift, assign, raise.
    destruct data as [data | other]; [ | discriminate ].
    destruct (pt_apex data from_bounds p) as [s [apex | e]]; [ | discriminate ].
    destruct (get_ms_at_index data apex) as [ms | e]; [ | discriminate ].
    intros H. destruct (make_UID_ok _ _ H) as [u ->]. split; [ discriminate | reflexivity ].
Qed.

Lemma mutual_exclusion_witness :
  exclusive (exec (setters := refusing_setters) (SetIcMass (PInt 73)) peak_60_50).
Proof.
  apply (mutual_exclusion (setters := refusing_setters)
           (exec (SetIcMass (PInt 73)) peak_60_50)).
  apply reach_exec.
  apply (reach_init (PFloat (PyNum.dyadic 49 (-2))) (PMassSpectrum ms_50_60_70)
                    (PBool false) (PBool false)).
  vm_compute. reflexivity.
Defined.

(** ** [crop_mass] when its filter keeps nothing *)

(** The two lists that [crop_mass] builds have the same length. *)
Lemma crop_scan_lengths lo hi ml : forall spec ii new_ml new_spec r,
  crop_scan lo hi ml spec ii new_ml new_spec = Ok r ->
  List.length new_ml = List.length new_spec ->
  List.length (fst r) = List.length (snd r).
Proof.
  induction ml as [ | mass ml IH ]; intros spec ii new_ml new_spec r; simpl.
  - intros [= <-]. exact (fun H => H).
  - destruct (PyNum.le lo mass && PyNum.le mass hi); [ | apply IH ].
    destruct (index spec ii) as [y | e]; [ | discriminate ]. simpl.
    intros Hr Hlen. apply (IH _ _ _ _ _ Hr).
    rewrite !length_app. simpl. lia.
Qed.

(** Once its filter has kept nothing, [crop_mass] does not return and
    does not reach [make_UID], whatever the setters of the spectrum do
    with the empty list: the UID and every attribute but the spectrum are
    what they were.  What the spectrum holds then is what the setters have
    left. *)
Lemma crop_mass_nothing_kept {setters : MassSpectrum_setters}
    (self : Peak) (ms : MassSpectrum) (mass_min mass_max : pyval) (lo hi : num)
    (new_mass_spec : list num) :
  _mass_spectrum self = Some ms ->
  as_num mass_min = Some lo ->
  as_num mass_max = Some hi ->
  crop_scan lo hi (mass_list ms) (mass_spec ms) 0 [] [] = Ok ([], new_mass_spec) ->
  exists ms' e,
    crop_mass mass_min mass_max self = (with_mass_spectrum (Some ms') self, Raise e).
Proof.
  intros Hms Hlo Hhi Hscan.
  assert (Hself : self = with_mass_spectrum (Some ms) self)
    by (destruct self; simpl in Hms; subst; reflexivity).
  unfold crop_mass, bind, get, raise_if, raise, lift, ret.
  rewrite Hms, Hlo, Hhi.
  destruct (PyNum.ge lo hi);
    [ exists ms; eexists; rewrite <- Hself; reflexivity | ].
  destruct (py_min (mass_list ms)) as [smallest | e];
    [ | exists ms, e; rewrite <- Hself; reflexivity ].
  destruct (PyNum.lt lo smallest);
    [ exists ms; eexists; rewrite <- Hself; reflexivity | ].
  destruct (py_max (mass_list ms)) as [largest | e];
    [ | exists ms, e; rewrite <- Hself; reflexivity ].
  destruct (PyNum.gt hi largest);
    [ exists ms; eexists; rewrite <- Hself; reflexivity | ].
  rewrite Hscan. unfold set_mass_list, set_mass_spec, on_spectrum. rewrite Hms.
  cbn [fst snd MassSpectrum_set_mass_list].
  destruct (set_empty_mass_list ms) as [ms1 [[] | e]]; [ | exists ms1, e; reflexivity ].
  cbn [_mass_spectrum with_mass_spectrum].
  destruct (MassSpectrum_set_mass_spec new_mass_spec ms1) as [ms2 [[] | e]];
    [ exists ms2, crop_empty | exists ms2, e ]; reflexivity.
Qed.

(** [Peak(0.0, MassSpectrum([50, 100], [1, 2]))] cropped to [60, 70], with
    setters that store the empty list and with setters that refuse it. *)
Example crop_mass_nothing_kept_examples :
  crop_mass (setters := storing_setters) (PInt 60) (PInt 70) peak_50_100
  = (with_mass_spectrum (Some (mkMS [] [])) peak_50_100, Raise crop_empty)
  /\ crop_mass (setters := refusing_setters) (PInt 60) (PInt 70) peak_50_100
     = (peak_50_100, Raise (Exn IndexError "list index out of range")).
Proof. split; reflexivity. Qed.

(** C10.  Assigning the empty dict to [ion_areas] raises the [IndexError]
    of indexing the empty list of keys, and the peak, the stored ion areas
    with it, is unchanged. *)
Theorem set_ion_areas_empty_dict (self : Peak) :
  set_ion_areas (PDict []) self
  = (self, Raise (Exn IndexError "list index out of range")).
Proof. reflexivity. Qed.

(** ** [sorted] *)

Section SortedFacts.
Context {A : Type} (less : A -> A -> bool).
Hypothesis less_asym : forall a b, less a b = true -> less b a = false.
Hypothesis less_trans :
  forall a b c, less a b = true -> less b c = true -> less a c = true.

Lemma insert_perm x l : Permutation (insert less x l) (x :: l).
Proof.
  induction l as [ | y l IH ]; simpl; [ reflexivity | ].
  destruct (less x y); [ reflexivity | ].
  rewrite IH. apply perm_swap.
Qed.

Lemma fold_insert_perm l : forall acc,
  Permutation (fold_left (fun acc x => insert less x acc) l acc) (l ++ acc).
Proof.
  induction l as [ | x l IH ]; intros acc; simpl; [ reflexivity | ].
  rewrite IH, insert_perm. symmetry. apply Permutation_middle.
Qed.

Lemma sorted_perm l : Permutation (sorted less l) l.
Proof. unfold sorted. rewrite fold_insert_perm, app_nil_r. reflexivity. Qed.

Lemma insert_sorted x l :
  StronglySorted (not_after less) l -> StronglySorted (not_after less) (insert less x l).
Proof.
  induction 1 as [ | y l Hl IH Hy ]; simpl.
  - repeat constructor.
  - destruct (less x y) eqn:Hxy.
    + constructor; [ constructor; assumption | ].
      constructor; [ apply less_asym, Hxy | ].
      rewrite Forall_forall in *. intros z Hz. specialize (Hy z Hz).
      unfold not_after in *.
      destruct (less z x) eqn:Hzx; [ | reflexivity ].
      rewrite (less_trans _ _ _ Hzx Hxy) in Hy. discriminate.
    + constructor; [ exact IH | ].
      eapply Permutation_Forall; [ symmetry; apply insert_perm | ].
      constructor; assumption.
Qed.

Lemma fold_insert_sorted l : forall acc,
  StronglySorted (not_after less) acc ->
  StronglySorted (not_after less) (fold_left (fun acc x => insert less x acc) l acc).
Proof.
  induction l as [ | x l IH ]; intros acc Hacc; simpl; [ exact Hacc | ].
  apply IH, insert_sorted, Hacc.
Qed.

Lemma sorted_sorted l : StronglySorted (not_after less) (sorted less l).
Proof. apply fold_insert_sorted. constructor. Qed.
End SortedFacts.

Lemma StronglySorted_on {A} (P : A -> Prop) (R R' : A -> A -> Prop) l :
  (forall a b, P a -> P b -> R a b -> R' a b) ->
  Forall P l -> StronglySorted R l -> StronglySorted R' l.
Proof.
  intros HR HP Hs. induction Hs as [ | a l Hs IH Ha ]; [ constructor | ].
  inversion HP as [ | ? ? Pa Pl ]; subst.
  constructor; [ apply IH, Pl | ].
  rewrite Forall_forall in *. intros b Hb. apply HR; auto.
Qed.

(** *** The order of pairs *)

Lemma pair_lt_cases a b :
  pair_lt a b = true <->
  PyNum.lt (fst a) (fst b) = true
  \/ (PyNum.eq (fst a) (fst b) = true /\ PyNum.lt (snd a) (snd b) = true).
Proof.
  unfold pair_lt. destruct (PyNum.eq (fst a) (fst b)) eqn:He.
  - destruct (PyNum.eq (snd a) (snd b)) eqn:He2; split.
    + discriminate.
    + intros [H | [_ H]].
      * rewrite (NumOrder.lt_not_eq _ _ H) in He. discriminate.
      * rewrite (NumOrder.lt_not_eq _ _ H) in He2. discriminate.
    + auto.
    + intros [H | [_ H]]; [ | exact H ].
      rewrite (NumOrder.lt_not_eq _ _ H) in He. discriminate.
  - split; [ auto | ]. intros [H | [H _]]; [ exact H | discriminate ].
Qed.

Lemma pair_lt_trans a b c :
  pair_lt a b = true -> pair_lt b c = true -> pair_lt a c = true.
Proof.
  rewrite !pair_lt_cases. intros [H1 | [H1 H1']] [H2 | [H2 H2']].
  - left. eapply NumOrder.lt_trans; eassumption.
  - left. eapply NumOrder.lt_eq_trans; eassumption.
  - left. eapply NumOrder.eq_lt_trans; eassumption.
  - right. split.
    + eapply NumOrder.eq_trans; eassumption.
    + eapply NumOrder.lt_trans; eassumption.
Qed.

Lemma pair_lt_asym a b : pair_lt a b = true -> pair_lt b a = false.
Proof.
  intros H. destruct (pair_lt b a) eqn:H'; [ | reflexivity ].
  pose proof (pair_lt_trans _ _ _ H H') as Haa.
  apply pair_lt_cases in Haa. destruct Haa as [Haa | [_ Haa]];
    rewrite NumOrder.lt_irrefl in Haa; discriminate.
Qed.

Lemma not_after_ascending a b :
  pair_no_nan a -> pair_no_nan b -> not_after pair_lt a b -> ascending a b.
Proof.
  intros [Ha1 Ha2] [Hb1 Hb2]. unfold not_after, pair_lt, ascending.
  rewrite (NumOrder.eq_sym (fst b)), (NumOrder.eq_sym (snd b)).
  destruct (PyNum.eq (fst a) (fst b)) eqn:He.
  - destruct (PyNum.eq (snd a) (snd b)) eqn:He2; intros H; right; split; try reflexivity.
    + rewrite NumOrder.le_lt_or_eq, He2. apply orb_true_r.
    + apply NumOrder.not_lt_le; assumption.
  - intros H. left. apply NumOrder.not_lt_not_eq; try assumption.
    rewrite NumOrder.eq_sym. exact He.
Qed.

Lemma combine_no_nan l1 : forall l2,
  no_nan l1 -> no_nan l2 -> Forall pair_no_nan (combine l1 l2).
Proof.
  induction l1 as [ | x l1 IH ]; intros [ | y l2 ] H1 H2; simpl; try constructor.
  - inversion H1; inversion H2; subst. split; assumption.
  - inversion H1; inversion H2; subst. apply IH; assumption.
Qed.

Lemma map_snd_combine {A B} (l1 : list A) : forall (l2 : list B),
  List.length l1 = List.length l2 -> map snd (combine l1 l2) = l2.
Proof.
  induction l1 as [ | x l1 IH ]; intros [ | y l2 ]; simpl; try discriminate.
  - reflexivity.
  - intros [= H]. rewrite IH by exact H. reflexivity.
Qed.

(** The pairs of [top_ions], sorted. *)
Lemma sorted_ic_spec ms :
  List.length (mass_list ms) = List.length (mass_spec ms) ->
  no_nan (mass_list ms) -> no_nan (mass_spec ms) ->
  Permutation (sorted_ic ms) (combine (mass_spec ms) (mass_list ms))
  /\ StronglySorted ascending (sorted_ic ms)
  /\ List.length (sorted_ic ms) = List.length (mass_list ms)
  /\ Permutation (map snd (sorted_ic ms)) (mass_list ms).
Proof.
  intros Hlen Hml Hspec.
  assert (Hperm : Permutation (sorted_ic ms) (combine (mass_spec ms) (mass_list ms)))
    by apply sorted_perm.
  split; [ exact Hperm | ]. split; [ | split ].
  - apply (StronglySorted_on pair_no_nan (not_after pair_lt)).
    + exact not_after_ascending.
    + eapply Permutation_Forall; [ symmetry; exact Hperm | ].
      apply combine_no_nan; assumption.
    + apply sorted_sorted; [ exact pair_lt_asym | exact pair_lt_trans ].
  - rewrite (Permutation_length Hperm), length_combine. lia.
  - rewrite (Permutation_map snd Hperm), map_snd_combine by (symmetry; exact Hlen).
    reflexivity.
Qed.

(** ** [top_ions] *)

Lemma slice_from_last {A} (l : list A) n :
  1 <= n ->
  slice_from l (- n)
  = skipn (List.length l - Nat.min (Z.to_nat n) (List.length l)) l.
Proof.
  intros Hn. unfold slice_from.
  destruct (Z.ltb_spec (- n) 0); [ | lia ].
  f_equal. lia.
Qed.

Lemma slice_from_zero {A} (l : list A) : slice_from l (- 0) = l.
Proof. unfold slice_from. simpl. destruct (List.length l); reflexivity. Qed.

(** C6.  For a mass spectrum of [k] points, none a NaN, and [1 <= n],
    [top_ions(n)] returns the masses of the last [min n k] pairs of
    [pairs], where [pairs] is a permutation of the pairs (intensity, mass)
    of the spectrum that ascends by intensity and, among equal
    intensities, by mass; so these masses come lowest intensity first.
    When [n] is at least [k], all [k] masses are returned. *)
Theorem top_ions_spec (self : Peak) (ms : MassSpectrum) (n : Z) :
  _mass_spectrum self = Some ms ->
  List.length (mass_list ms) = List.length (mass_spec ms) ->
  no_nan (mass_list ms) -> no_nan (mass_spec ms) ->
  1 <= n ->
  let k := List.length (mass_list ms) in
  exists pairs masses,
    Permutation pairs (combine (mass_spec ms) (mass_list ms))
    /\ StronglySorted ascending pairs
    /\ top_ions (PInt n) self = Ok masses
    /\ masses = map snd (skipn (k - Nat.min (Z.to_nat n) k) pairs)
    /\ List.length masses = Nat.min (Z.to_nat n) k
    /\ (Z.of_nat k <= n -> masses = map snd pairs /\ Permutation masses (mass_list ms)).
Proof.
  intros Hms Hlen Hml Hspec Hn k.
  destruct (sorted_ic_spec ms Hlen Hml Hspec) as [Hperm [Hsorted [Hk Hall]]].
  exists (sorted_ic ms), (map snd (slice_from (sorted_ic ms) (- n))).
  rewrite slice_from_last, Hk by exact Hn. fold k.
  repeat split; try assumption.
  - unfold top_ions. simpl. rewrite Hms, slice_from_last, Hk by exact Hn. reflexivity.
  - rewrite length_map, length_skipn, Hk. fold k. lia.
  - replace (k - Nat.min (Z.to_nat n) k)%nat with 0%nat by lia. reflexivity.
  - replace (k - Nat.min (Z.to_nat n) k)%nat with 0%nat by lia. exact Hall.
Qed.

Lemma ints_no_nan l : no_nan (ints l).
Proof. induction l; constructor; [ reflexivity | assumption ]. Qed.

Lemma top_ions_spec_witness :
  exists pairs masses,
    Permutation pairs (combine (mass_spec ms_50_60_70) (mass_list ms_50_60_70))
    /\ StronglySorted ascending pairs
    /\ top_ions (PInt 2) peak_60_50 = Ok masses
    /\ masses = map snd (skipn (3 - Nat.min (Z.to_nat 2) 3) pairs)
    /\ List.length masses = Nat.min (Z.to_nat 2) 3
    /\ (Z.of_nat 3 <= 2 -> masses = map snd pairs
                          /\ Permutation masses (mass_list ms_50_60_70)).
Proof.
  apply (top_ions_spec peak_60_50 ms_50_60_70 2 eq_refl eq_refl).
  - apply ints_no_nan.
  - apply ints_no_nan.
  - lia.
Defined.

(** C9.  For a mass spectrum that is not empty and holds no NaN,
    [top_ions(0)] returns the masses of all the points, in the order of the
    sorted pairs (ascending by intensity, then by mass): as many masses as
    the spectrum has, not an empty list. *)
Theorem top_ions_zero (self : Peak) (ms : MassSpectrum) :
  _mass_spectrum self = Some ms ->
  List.length (mass_list ms) = List.length (mass_spec ms) ->
  no_nan (mass_list ms) -> no_nan (mass_spec ms) ->
  mass_list ms <> [] ->
  exists pairs masses,
    Permutation pairs (combine (mass_spec ms) (mass_list ms))
    /\ StronglySorted ascending pairs
    /\ top_ions (PInt 0) self = Ok masses
    /\ masses = map snd pairs
    /\ List.length masses = List.length (mass_list ms)
    /\ masses <> [].
Proof.
  intros Hms Hlen Hml Hspec Hne.
  destruct (sorted_ic_spec ms Hlen Hml Hspec) as [Hperm [Hsorted [Hk Hall]]].
  exists (sorted_ic ms), (map snd (sorted_ic ms)).
  repeat split; try assumption.
  - unfold top_ions. simpl. rewrite Hms, slice_from_zero. reflexivity.
  - rewrite length_map. exact Hk.
  - intros E. apply Hne. apply Permutation_nil. rewrite <- E. exact Hall.
Qed.

Lemma top_ions_zero_witness :
  exists pairs masses,
    Permutation pairs (combine (mass_spec ms_50_60_70) (mass_list ms_50_60_70))
    /\ StronglySorted ascending pairs
    /\ top_ions (PInt 0) peak_60_50 = Ok masses
    /\ masses = map snd pairs
    /\ List.length masses = List.length (mass_list ms_50_60_70)
    /\ masses <> [].
Proof.
  apply (top_ions_zero peak_60_50 ms_50_60_70 eq_refl eq_refl).
  - apply ints_no_nan.
  - apply ints_no_nan.
  - discriminate.
Defined.

Example top_ions_nothing_sliced : top_ions (PInt 0) peak_60_50 = Ok (ints [50; 70; 60]).
Proof. reflexivity. Qed.

(** ** [get_third_highest_mz] *)

(** C2.  On the spectrum of masses [50, 60, 70] with the intensities
    [5, 3, 1], [get_third_highest_mz] returns 50, the mass of the highest
    intensity (the last pair of the sorted pairs), whereas the third
    highest intensity, 1, belongs to the mass 70 (the third pair from the
    end). *)
Theorem get_third_highest_mz_descending :
  get_third_highest_mz peak_descending = Ok (Some 50)
  /\ nth_error (rev (sorted_ic ms_descending)) 2 = Some (NInt 1, NInt 70)
  /\ nth_error (rev (sorted_ic ms_descending)) 0 = Some (NInt 5, NInt 50).
Proof. repeat split. Qed.

Lemma get_third_highest_mz_no_spectrum self :
  _mass_spectrum self = None -> get_third_highest_mz self = Ok None.
Proof. unfold get_third_highest_mz. intros ->. reflexivity. Qed.

(** ** [Peak.__init__] *)

(** C5.  [Peak(1.0, "")] raises a [ValueError], not a [TypeError]: the
    empty string is falsy, so the type check of [ms] lets it through, it is
    stored as the single ion mass, and [int("")] fails in [make_UID]. *)
Theorem Peak_init_empty_string :
  Peak_init (PFloat (PyNum.dyadic 1 0)) (PStr "") (PBool false) (PBool false)
  = Raise (Exn ValueError "invalid literal for int() with base 10").
Proof. reflexivity. Qed.

Lemma Peak_init_rt_not_number rt ms minutes outlier :
  is_number rt = false ->
  Peak_init rt ms minutes outlier = Raise (Exn TypeError "'rt' must be a number").
Proof.
  unfold Peak_init, is_number. destruct (as_num rt); [ discriminate | reflexivity ].
Qed.

Lemma Peak_init_ms_truthy_other rt ms minutes outlier :
  is_number rt = true -> truthy ms = true ->
  is_MassSpectrum ms = false -> is_number ms = false ->
  Peak_init rt ms minutes outlier
  = Raise (Exn TypeError "'ms' must be a number or a MassSpectrum object").
Proof.
  unfold Peak_init, is_number at 1. destruct (as_num rt); [ | discriminate ].
  intros _ -> -> ->. reflexivity.
Qed.

(** *** The scan of [get_third_highest_mz] on few distinct intensities *)

Lemma third_scan_no_update l : forall ii best best_ii best2_ii best3_ii,
  Forall (fun x => PyNum.gt x best = false) l ->
  third_scan l ii best best_ii best2_ii best3_ii = best3_ii.
Proof.
  induction l as [ | x l IH ]; intros ii best bi b2 b3 H; simpl; [ reflexivity | ].
  inversion H as [ | ? ? Hx Hl ]; subst. rewrite Hx. apply IH, Hl.
Qed.

Lemma third_scan_one_value l : forall c ii best best_ii best2_ii best3_ii,
  Forall (fun x => PyNum.eq x best = true \/ PyNum.eq x c = true) l ->
  third_scan l ii best best_ii best2_ii best3_ii = best3_ii
  \/ third_scan l ii best best_ii best2_ii best3_ii = best2_ii.
Proof.
  induction l as [ | x l IH ]; intros c ii best bi b2 b3 H; simpl; [ left; reflexivity | ].
  inversion H as [ | ? ? Hx Hl ]; subst.
  destruct (PyNum.gt x best) eqn:Hgt.
  - right. apply third_scan_no_update.
    rewrite NumOrder.gt_lt in Hgt.
    assert (Hxc : PyNum.eq x c = true).
    { destruct Hx as [Hx | Hx]; [ | exact Hx ].
      rewrite NumOrder.eq_sym, (NumOrder.lt_not_eq _ _ Hgt) in Hx. discriminate. }
    eapply Forall_impl; [ | exact Hl ]. intros y Hy.
    rewrite NumOrder.gt_lt. destruct (PyNum.lt x y) eqn:Hxy; [ | reflexivity ].
    destruct Hy as [Hy | Hy].
    + rewrite (NumOrder.lt_asym _ _ (NumOrder.lt_eq_trans _ _ _ Hxy Hy)) in Hgt.
      discriminate.
    + rewrite NumOrder.eq_sym in Hxc.
      pose proof (NumOrder.lt_eq_trans _ _ _ Hxy (NumOrder.eq_trans _ _ _ Hy Hxc)) as Hxx.
      rewrite NumOrder.lt_irrefl in Hxx. discriminate.
  - apply (IH c). exact Hl.
Qed.

Lemma third_scan_two_values l : forall a b ii best best_ii best2_ii best3_ii,
  Forall (fun x => PyNum.eq x a = true \/ PyNum.eq x b = true) l ->
  third_scan l ii best best_ii best2_ii best3_ii = best3_ii
  \/ third_scan l ii best best_ii best2_ii best3_ii = best2_ii
  \/ third_scan l ii best best_ii best2_ii best3_ii = best_ii.
Proof.
  induction l as [ | x l IH ]; intros a b ii best bi b2 b3 H; simpl; [ left; reflexivity | ].
  inversion H as [ | ? ? Hx Hl ]; subst.
  destruct (PyNum.gt x best) eqn:Hgt.
  - right.
    assert (Hrest : exists c, Forall (fun y => PyNum.eq y x = true \/ PyNum.eq y c = true) l).
    { destruct Hx as [Hx | Hx]; [ exists b | exists a ];
        (eapply Forall_impl; [ | exact Hl ]); intros y [Hy | Hy]; auto; left;
        (eapply NumOrder.eq_trans; [ exact Hy | rewrite NumOrder.eq_sym; exact Hx ]). }
    destruct Hrest as [c Hc].
    apply (third_scan_one_value l c (S ii) x ii bi b2 Hc).
  - apply (IH a b). exact Hl.
Qed.

(** With fewer than three distinct intensities, the mass at index 0 is
    returned (converted by [int]). *)
Lemma get_third_highest_mz_two_values self ms a b m0 :
  _mass_spectrum self = Some ms ->
  Forall (fun x => PyNum.eq x a = true \/ PyNum.eq x b = true) (mass_spec ms) ->
  nth_error (mass_list ms) 0 = Some m0 ->
  get_third_highest_mz self = (z <-- PyNum.to_int m0 ; Ok (Some z))%res.
Proof.
  intros Hms Hab Hm0. unfold get_third_highest_mz. rewrite Hms.
  assert (H3 : third_scan (mass_spec ms) 0 (NInt 0) 0 0 0 = 0%nat).
  { destruct (third_scan_two_values _ a b 0 (NInt 0) 0 0 0 Hab) as [H | [H | H]];
      exact H. }
  rewrite H3. unfold index. rewrite Hm0. reflexivity.
Qed.

Lemma Peak_init_stores rt ms minutes outlier p :
  Peak_init rt ms minutes outlier = Ok p ->
  match ms with
  | PMassSpectrum m => _mass_spectrum p = Some m /\ _ic_mass p = PNone
  | _ => _mass_spectrum p = None /\ _ic_mass p = ms
  end.
Proof.
  unfold Peak_init. destruct (as_num rt) as [rt' | ]; [ | discriminate ].
  destruct (truthy ms && negb (is_MassSpectrum ms) && negb (is_number ms));
    [ discriminate | ].
  destruct (if truthy minutes then _ else _) as [rt1 | ]; [ | discriminate ].
  cbn [rbind]. destruct (PyNum.to_float rt1) as [rtf | ]; [ | discriminate ].
  cbn [rbind].
  match goal with |- context [make_UID ?s] =>
    pose proof (make_UID_ok s) as Hok; destruct (make_UID s) as [s' [ [] | e ]]
  end; [ | discriminate ].
  intros [= <-]. destruct (Hok s' eq_refl) as [u ->].
  destruct ms; split; reflexivity.
Qed.

(** ** [null_mass] *)

Lemma null_scan_diffs mass ml : forall ds ii best ix,
  abs_diffs mass ml = Ok ds ->
  null_scan mass ml ii best ix = Ok (nearest_scan ds ii best ix).
Proof.
  induction ml as [ | m ml IH ]; intros ds ii best ix; simpl.
  - intros [= <-]. reflexivity.
  - destruct (PyNum.sub m mass) as [d | e]; [ | discriminate ]. simpl.
    destruct (abs_diffs mass ml) as [ds' | e]; [ | discriminate ]. simpl.
    intros [= <-]. simpl.
    destruct (PyNum.lt (PyNum.abs d) best); apply IH; reflexivity.
Qed.

Lemma abs_diffs_length mass ml : forall ds,
  abs_diffs mass ml = Ok ds -> List.length ds = List.length ml.
Proof.
  induction ml as [ | m ml IH ]; intros ds; simpl.
  - intros [= <-]. reflexivity.
  - destruct (PyNum.sub m mass) as [d | e]; [ | discriminate ]. simpl.
    destruct (abs_diffs mass ml) as [ds' | e]; [ | discriminate ]. simpl.
    intros [= <-]. simpl. rewrite (IH ds' eq_refl). reflexivity.
Qed.

(** Where the scan stops: at [ix] when no difference is below [best], else
    at the first of the least differences. *)
Lemma nearest_scan_spec ds : forall ii best ix,
  (Forall (fun d => PyNum.lt d best = false) ds /\ nearest_scan ds ii best ix = ix)
  \/ exists j d,
       nth_error ds j = Some d
       /\ nearest_scan ds ii best ix = (ii + j)%nat
       /\ PyNum.lt d best = true
       /\ (forall k d', nth_error ds k = Some d' -> PyNum.lt d' d = false)
       /\ (forall k d', (k < j)%nat -> nth_error ds k = Some d' -> PyNum.eq d' d = false).
Proof.
  induction ds as [ | d0 ds IH ]; intros ii best ix; simpl.
  - left. split; [ constructor | reflexivity ].
  - destruct (PyNum.lt d0 best) eqn:H0.
    + right. destruct (IH (S ii) d0 ii) as [[Hall ->] | [j [d [Hj [-> [Hlt [Hmin Hfirst]]]]]]].
      * exists 0%nat, d0. repeat split; try assumption.
        -- f_equal. lia.
        -- intros [ | k ] d'; simpl.
           ++ intros [= <-]. apply NumOrder.lt_irrefl.
           ++ intros Hk. rewrite Forall_forall in Hall.
              apply Hall. eapply nth_error_In. exact Hk.
        -- intros k d' Hk. lia.
      * exists (S j), d. repeat split.
        -- exact Hj.
        -- lia.
        -- eapply NumOrder.lt_trans; eassumption.
        -- intros [ | k ] d'; simpl.
           ++ intros [= <-]. apply NumOrder.lt_asym. exact Hlt.
           ++ apply Hmin.
        -- intros [ | k ] d' Hk; simpl.
           ++ intros [= <-]. rewrite NumOrder.eq_sym.
              apply NumOrder.lt_not_eq. exact Hlt.
           ++ apply Hfirst. lia.
    + destruct (IH (S ii) best ix) as [[Hall ->] | [j [d [Hj [-> [Hlt [Hmin Hfirst]]]]]]].
      * left. split; [ constructor; assumption | reflexivity ].
      * right. exists (S j), d. repeat split.
        -- exact Hj.
        -- lia.
        -- exact Hlt.
        -- intros [ | k ] d'; simpl.
           ++ intros [= <-]. destruct (PyNum.lt d0 d) eqn:H0d; [ | reflexivity ].
              rewrite (NumOrder.lt_trans _ _ _ H0d Hlt) in H0. discriminate.
           ++ apply Hmin.
        -- intros [ | k ] d' Hk; simpl.
           ++ intros [= <-]. destruct (PyNum.eq d0 d) eqn:H0d; [ | reflexivity ].
              rewrite (NumOrder.eq_lt_trans _ _ _ H0d Hlt) in H0. discriminate.
           ++ apply Hfirst. lia.
Qed.

(** *** Item assignment *)

Lemma set_item_ok {A} (l : list A) : forall ix v,
  (ix < List.length l)%nat ->
  exists l', set_item l ix v = Ok l'
             /\ List.length l' = List.length l
             /\ nth_error l' ix = Some v
             /\ forall j, j <> ix -> nth_error l' j = nth_error l j.
Proof.
  induction l as [ | x l IH ]; intros ix v Hix; simpl in Hix; [ lia | ].
  destruct ix as [ | ix ]; simpl.
  - exists (v :: l). repeat split. intros [ | j ] Hj; [ congruence | reflexivity ].
  - destruct (IH ix v) as [l' [-> [Hlen [Hnth Hother]]]]; [ lia | ].
    exists (x :: l'). simpl. repeat split.
    + f_equal. exact Hlen.
    + exact Hnth.
    + intros [ | j ] Hj; [ reflexivity | ]. simpl. apply Hother. congruence.
Qed.

(** C8, amended.  On a peak whose mass spectrum has as many masses as
    intensities, [null_mass(mass)] raises the [IndexError] and leaves the
    peak unchanged when [mass] is below the least or above the greatest
    mass.  Otherwise, when the differences [abs(m - mass)] can all be
    computed and one of them is below [max(mass_list)], it zeroes in place
    the intensity at the index [ix] of a least difference, the first such
    index, and then does what [make_UID] does on that state: the UID is
    recomputed when [make_UID] returns, and what [make_UID] raises is
    raised, the intensity staying zeroed. *)
Theorem null_mass_spec (self : Peak) (ms : MassSpectrum) (mass : pyval) (m lo hi : num) :
  _mass_spectrum self = Some ms ->
  List.length (mass_list ms) = List.length (mass_spec ms) ->
  as_num mass = Some m ->
  py_min (mass_list ms) = Ok lo ->
  py_max (mass_list ms) = Ok hi ->
  (PyNum.lt m lo = true \/ PyNum.gt m hi = true ->
   null_mass mass self = (self, Raise (Exn IndexError "'mass' not in mass range:")))
  /\ (PyNum.lt m lo = false -> PyNum.gt m hi = false ->
      forall ds,
        abs_diffs m (mass_list ms) = Ok ds ->
        Exists (fun d => PyNum.lt d hi = true) ds ->
        exists ix d spec',
          nth_error ds ix = Some d
          /\ (forall j d', nth_error ds j = Some d' -> PyNum.lt d' d = false)
          /\ (forall j d', (j < ix)%nat -> nth_error ds j = Some d' ->
                           PyNum.eq d' d = false)
          /\ nth_error spec' ix = Some (NInt 0)
          /\ (forall j, j <> ix -> nth_error spec' j = nth_error (mass_spec ms) j)
          /\ List.length spec' = List.length (mass_spec ms)
          /\ null_mass mass self
             = make_UID (with_mass_spectrum (Some (mkMS (mass_list ms) spec')) self)).
Proof.
  intros Hms Hlen Hm Hlo Hhi. split.
  - intros Hout. unfold null_mass, bind, get, lift, raise_if, raise, ret.
    rewrite Hms, Hm, Hlo.
    destruct (PyNum.lt m lo) eqn:Hlt; [ reflexivity | ].
    destruct Hout as [Hout | Hout]; [ discriminate | ].
    rewrite Hhi, Hout. reflexivity.
  - intros Hlt Hgt ds Hds Hex.
    destruct (nearest_scan_spec ds 0 hi 0) as [[Hall _] | [ix [d [Hix [Hscan [_ [Hmin Hfirst]]]]]]].
    { exfalso. rewrite Forall_forall in Hall. rewrite Exists_exists in Hex.
      destruct Hex as [d [Hin Hd]]. rewrite (Hall d Hin) in Hd. discriminate. }
    simpl in Hscan.
    destruct (set_item_ok (mass_spec ms) ix (NInt 0)) as [spec' [Hset [Hlen' [Hnth Hother]]]].
    { rewrite <- Hlen, <- (abs_diffs_length _ _ _ Hds).
      apply nth_error_Some. rewrite Hix. discriminate. }
    exists ix, d, spec'. repeat split; try assumption.
    unfold null_mass, bind, get, lift, raise_if, raise, ret, assign_mass_spec, assign.
    rewrite Hms, Hm, Hlo, Hlt, Hhi, Hgt.
    rewrite (null_scan_diffs _ _ _ _ _ _ Hds), Hscan, Hset, Hms.
    reflexivity.
Qed.

Lemma null_mass_spec_witness :
  exists ix d spec',
    nth_error (ints [10; 0; 10]) ix = Some d
    /\ (forall j d', nth_error (ints [10; 0; 10]) j = Some d' -> PyNum.lt d' d = false)
    /\ (forall j d', (j < ix)%nat -> nth_error (ints [10; 0; 10]) j = Some d' ->
                     PyNum.eq d' d = false)
    /\ nth_error spec' ix = Some (NInt 0)
    /\ (forall j, j <> ix -> nth_error spec' j = nth_error (mass_spec ms_50_60_70) j)
    /\ List.length spec' = List.length (mass_spec ms_50_60_70)
    /\ null_mass (PInt 60) peak_60_50
       = make_UID (with_mass_spectrum (Some (mkMS (mass_list ms_50_60_70) spec'))
                                      peak_60_50).
Proof.
  apply (null_mass_spec peak_60_50 ms_50_60_70 (PInt 60) (NInt 60) (NInt 50) (NInt 70)
           eq_refl eq_refl eq_refl eq_refl eq_refl); try reflexivity.
  apply Exists_cons_hd. reflexivity.
Defined.

Example null_mass_60 :
  null_mass (PInt 60) peak_60_50
  = (mkPeak (PBool false) (PyNum.dyadic 49 (-2)) None None []
            (Some (mkMS (ints [50; 60; 70]) (ints [1; 0; 3]))) PNone "70-50-33-12.25",
     Ok tt).
Proof. vm_compute. reflexivity. Qed.

(** C8, as it was stated, fails twice.  On [peak_one_signal],
    [null_mass(50)] zeroes the only positive intensity and the
    [ZeroDivisionError] of [make_UID] leaves the old UID in place.  On
    [peak_negative], whose masses are negative, [null_mass(-1)] zeroes the
    intensity at index 0, the difference of which is 9, although the
    difference at index 1 is 0. *)
Lemma null_mass_not_nearest_or_no_UID :
  (Peak_init (PFloat zero) (PMassSpectrum ms_one_signal) (PBool false) (PBool false)
   = Ok peak_one_signal
   /\ exists msg,
       null_mass (PInt 50) peak_one_signal
       = (peak_no_signal, Raise (Exn ZeroDivisionError msg))
       /\ _mass_spectrum peak_no_signal = Some (mkMS (ints [50; 60]) (ints [0; 0]))
       /\ _UID peak_no_signal = _UID peak_one_signal)
  /\ (Peak_init (PFloat zero) (PMassSpectrum ms_negative) (PBool false) (PBool false)
      = Ok peak_negative
      /\ abs_diffs (NInt (-1)) (mass_list ms_negative) = Ok (ints [9; 0])
      /\ null_mass (PInt (-1)) peak_negative
         = (peak_of (mkMS (ints [-10; -1]) (ints [0; 7])) "-1--10-0-0.00", Ok tt)).
Proof.
  split.
  - split; [ vm_compute; reflexivity | ].
    eexists. split; [ vm_compute; reflexivity | ]. split; reflexivity.
  - split; [ vm_compute; reflexivity | ].
    split; [ reflexivity | vm_compute; reflexivity ].
Qed.

(** ** The scenarios of the documentation and the test data *)

Example dyadic_1_5 : PyNum.dyadic 3 (-1) = S754_finite false 6755399441055744 (-52).
Proof. reflexivity. Qed.

Example format_2f_ex :
  PyNum.format_2f (PyNum.dyadic 1 (-3)) = "0.12"
  /\ PyNum.format_2f (PyNum.dyadic 3 (-3)) = "0.38"
  /\ PyNum.format_2f (PyNum.dyadic (-90) 0) = "-90.00"
  /\ PyNum.format_2f (PyNum.dyadic 286363 (-2)) = "71590.75".
Proof. repeat split; vm_compute; reflexivity. Qed.

Example int_of_string_ex :
  int_of_string "" = None /\ int_of_string " -1_000 " = Some (-1000)
  /\ int_of_string "1__0" = None /\ int_of_string "12_" = None
  /\ int_of_string "+ 1" = None /\ int_of_string "007" = Some 7.
Proof. repeat split. Qed.

(** [Peak(rt=1.5, ms=100, minutes=True)] *)
Example scenario_1 :
  exists p,
    Peak_init (PFloat (PyNum.dyadic 3 (-1))) (PInt 100) (PBool true) (PBool false) = Ok p
    /\ _rt p = PyNum.dyadic 90 0 /\ _ic_mass p = PInt 100
    /\ _mass_spectrum p = None /\ _UID p = "100-90.00".
Proof. eexists. split; [ vm_compute; reflexivity | repeat split ]. Qed.

Example scenario_2 :
  get_third_highest_mz peak_60_50 = Ok (Some 50)
  /\ top_ions (PInt 2) peak_60_50 = Ok (ints [70; 60]).
Proof. split; reflexivity. Qed.

Example test_peaks_init :
  Peak_init (PFloat zero) (PMassSpectrum ms_descending) (PBool false) (PBool false)
  = Ok peak_descending
  /\ Peak_init (PFloat zero) (PMassSpectrum ms_50_100) (PBool false) (PBool false)
     = Ok peak_50_100
  /\ exists msg,
      Peak_init (PFloat zero) (PMassSpectrum ms_no_signal) (PBool false) (PBool false)
      = Raise (Exn ZeroDivisionError msg).
Proof.
  split; [ vm_compute; reflexivity | ].
  split; [ vm_compute; reflexivity | ].
  eexists. vm_compute. reflexivity.
Qed.

(** * Further properties *)

(** ** Invariants of all the operations *)

Section Frame.
Context {setters : MassSpectrum_setters}.
Variable P : Peak -> Prop.
Hypothesis P_UID : forall u self, P self -> P (with_UID u self).
Hypothesis P_mass_spectrum : forall ms self, P self -> P (with_mass_spectrum ms self).
Hypothesis P_ic_mass : forall v self, P self -> P (with_ic_mass v self).

Lemma frame_make_UID : preserves P make_UID.
Proof. apply preserves_make_UID. exact P_UID. Qed.

Lemma frame_on_spectrum f : preserves P (on_spectrum f).
Proof.
  intros self H. unfold on_spectrum.
  destruct (_mass_spectrum self) as [ms | ]; [ | exact H ].
  destruct (f ms). apply P_mass_spectrum, H.
Qed.

Lemma frame_assign_mass_spec l : preserves P (assign_mass_spec l).
Proof.
  apply preserves_assign. intros self H.
  destruct (_mass_spectrum self); [ apply P_mass_spectrum, H | exact H ].
Qed.

Lemma frame_crop_mass a b : preserves P (crop_mass a b).
Proof.
  unfold crop_mass. preserves_step; [ preserves_step | ].
  destruct a0 as [ms | ]; [ | preserves_step ].
  destruct (as_num a), (as_num b); try apply preserves_raise.
  repeat (preserves_step; [ first [ preserves_step | apply frame_on_spectrum ] | ]).
  match goal with |- context [match fst ?new with _ => _ end] => destruct (fst new) end;
    [ preserves_step | ].
  preserves_step; [ apply frame_make_UID | preserves_step ].
Qed.

Lemma frame_null_mass m : preserves P (null_mass m).
Proof.
  unfold null_mass. preserves_step; [ preserves_step | ].
  destruct a as [ms | ]; [ | preserves_step ].
  destruct (as_num m); [ | preserves_step ].
  preserves_step; [ preserves_step | ].
  preserves_step.
  { match goal with |- context [if ?c then _ else _] => destruct c end;
      repeat preserves_step. }
  repeat (preserves_step; [ first [ preserves_step | apply frame_assign_mass_spec ] | ]).
  apply frame_make_UID.
Qed.

Lemma frame_set_ic_mass v : preserves P (set_ic_mass v).
Proof.
  unfold set_ic_mass.
  preserves_step; [ preserves_step | ].
  preserves_step; [ apply preserves_assign; intros; apply P_ic_mass; assumption | ].
  preserves_step; [ apply preserves_assign; intros; apply P_mass_spectrum; assumption | ].
  apply frame_make_UID.
Qed.

Lemma frame_set_mass_spectrum v : preserves P (set_mass_spectrum v).
Proof.
  unfold set_mass_spectrum. destruct v; try apply preserves_raise.
  preserves_step; [ apply preserves_assign; intros; apply P_mass_spectrum; assumption | ].
  preserves_step; [ apply preserves_assign; intros; apply P_ic_mass; assumption | ].
  apply frame_make_UID.
Qed.

Lemma frame_pt_apex data from_bounds : preserves P (pt_apex data from_bounds).
Proof.
  unfold pt_apex. destruct (truthy from_bounds).
  - preserves_step; [ preserves_step | ].
    destruct a as [[[l a] r] | ]; [ | preserves_step ].
    destruct (as_int a); preserves_step.
  - repeat preserves_step.
Qed.

Lemma frame_find_mass_spectrum data from_bounds :
  preserves P (find_mass_spectrum data from_bounds).
Proof.
  unfold find_mass_spectrum. destruct data as [data | other]; [ | preserves_step ].
  preserves_step; [ apply frame_pt_apex | ].
  preserves_step; [ preserves_step | ].
  preserves_step; [ apply preserves_assign; intros; apply P_mass_spectrum; assumption | ].
  preserves_step; [ apply preserves_assign; intros; apply P_ic_mass; assumption | ].
  apply frame_make_UID.
Qed.

Lemma frame_set_area v :
  (forall a self, P self -> P (with_area a self)) -> preserves P (set_area v).
Proof.
  intros H. unfold set_area. destruct (as_num v); repeat preserves_step.
  apply preserves_assign. intros; apply H; assumption.
Qed.

Lemma frame_set_bounds_attr v :
  (forall b self, P self -> P (with_pt_bounds b self)) -> preserves P (set_bounds_attr v).
Proof.
  intros H. unfold set_bounds_attr.
  destruct (is_sequence v) as [[ | l [ | a [ | r [ | ? ? ]]]] | ]; repeat preserves_step.
  apply preserves_assign. intros; apply H; assumption.
Qed.

Lemma frame_set_ion_areas v :
  (forall d self, P self -> P (with_ion_areas d self)) -> preserves P (set_ion_areas v).
Proof.
  intros H. unfold set_ion_areas. destruct v; repeat preserves_step.
  apply preserves_assign. intros; apply H; assumption.
Qed.

Lemma frame_set_ion_area ion area :
  (forall d self, P self -> P (with_ion_areas d self)) ->
  preserves P (set_ion_area ion area).
Proof.
  intros H. unfold set_ion_area. destruct (as_int ion); repeat preserves_step.
  apply preserves_assign. intros; apply H; assumption.
Qed.

(** What the four setters that do not touch the spectrum keep, every
    operation keeps. *)
Lemma exec_invariant :
  (forall v self, P self -> P (with_is_outlier v self)) ->
  (forall v, preserves P (set_area v)) ->
  (forall v, preserves P (set_bounds_attr v)) ->
  (forall v, preserves P (set_ion_areas v)) ->
  (forall ion area, preserves P (set_ion_area ion area)) ->
  forall o self, P self -> P (exec o self).
Proof.
  intros Hout Harea Hbounds Hions Hion o self H. destruct o; simpl.
  - apply Harea, H.
  - apply Hbounds, H.
  - apply Hbounds, H.
  - apply frame_crop_mass, H.
  - apply frame_set_ic_mass, H.
  - apply Hions, H.
  - apply frame_make_UID, H.
  - apply frame_set_mass_spectrum, H.
  - apply frame_null_mass, H.
  - apply Hion, H.
  - apply frame_find_mass_spectrum, H.
  - apply Hout, H.
Qed.
End Frame.

Lemma reachable_invariant {setters : MassSpectrum_setters} (P : Peak -> Prop) :
  (forall rt ms minutes outlier p, Peak_init rt ms minutes outlier = Ok p -> P p) ->
  (forall o self, P self -> P (exec o self)) ->
  forall p, reachable p -> P p.
Proof.
  intros Hinit Hexec p Hp. induction Hp as [rt ms minutes outlier p Hp | o p _ IH].
  - exact (Hinit _ _ _ _ _ Hp).
  - apply Hexec, IH.
Qed.

(** The peak that the constructor returns, up to its UID. *)
Lemma Peak_init_fields rt ms minutes outlier p :
  Peak_init rt ms minutes outlier = Ok p ->
  is_outlier p = outlier /\ _pt_bounds p = None /\ _area p = None /\ _ion_areas p = [].
Proof.
  unfold Peak_init. destruct (as_num rt) as [rt' | ]; [ | discriminate ].
  destruct (truthy ms && negb (is_MassSpectrum ms) && negb (is_number ms));
    [ discriminate | ].
  destruct (if truthy minutes then _ else _) as [rt1 | ]; [ | discriminate ].
  cbn [rbind]. destruct (PyNum.to_float rt1) as [rtf | ]; [ | discriminate ].
  cbn [rbind].
  match goal with |- context [make_UID ?s] =>
    pose proof (make_UID_ok s) as Hok; destruct (make_UID s) as [s' [ [] | e ]]
  end; [ | discriminate ].
  intros [= <-]. destruct (Hok s' eq_refl) as [u ->].
  destruct ms; repeat split.
Qed.

(** X1.  No operation changes the retention time: whatever an operation of
    [op] does to a peak, and whether it returns or raises, [_rt] is what it
    was. *)
Theorem rt_never_changes {setters : MassSpectrum_setters} (o : op) (self : Peak) : _rt (exec o self) = _rt self.
Proof.
  apply (exec_invariant (fun s => _rt s = _rt self)); try (intros; assumption);
    try reflexivity.
  - intros v. apply frame_set_area; intros; assumption.
  - intros v. apply frame_set_bounds_attr; intros; assumption.
  - intros v. apply frame_set_ion_areas; intros; assumption.
  - intros ion area. apply frame_set_ion_area; intros; assumption.
Qed.

(** ** The area *)

Lemma area_ok_set_area v : preserves area_ok (set_area v).
Proof.
  intros self H. unfold set_area, bind, raise_if, raise, ret, assign.
  destruct (as_num v) as [n | ] eqn:Hn; [ | exact H ].
  destruct (PyNum.le n (NInt 0)) eqn:Hle; [ exact H | ].
  simpl. exists n. split; assumption.
Qed.

(** X2.  The area of a peak that exists is unset or a number that is not
    [<= 0]: the [area] setter is the only operation that assigns it, and
    it assigns after its two checks.  (A NaN passes the second check.) *)
Theorem area_not_le_zero {setters : MassSpectrum_setters} (p : Peak) :
  reachable p ->
  match _area p with
  | Some v => exists n, as_num v = Some n /\ PyNum.le n (NInt 0) = false
  | None => True
  end.
Proof.
  apply (reachable_invariant area_ok).
  - intros rt ms minutes outlier q Hq.
    destruct (Peak_init_fields _ _ _ _ _ Hq) as [_ [_ [Ha _]]].
    unfold area_ok. rewrite Ha. exact I.
  - apply exec_invariant; try (intros; assumption).
    + exact area_ok_set_area.
    + intros v. apply frame_set_bounds_attr; intros; assumption.
    + intros v. apply frame_set_ion_areas; intros; assumption.
    + intros ion area. apply frame_set_ion_area; intros; assumption.
Qed.

Lemma area_not_le_zero_witness :
  match _area (exec (setters := refusing_setters) (SetArea (PInt 7)) peak_60_50) with
  | Some v => exists n, as_num v = Some n /\ PyNum.le n (NInt 0) = false
  | None => True
  end.
Proof.
  apply (area_not_le_zero (setters := refusing_setters)
           (exec (SetArea (PInt 7)) peak_60_50)).
  apply reach_exec.
  apply (reach_init (PFloat (PyNum.dyadic 49 (-2))) (PMassSpectrum ms_50_60_70)
                    (PBool false) (PBool false)).
  vm_compute. reflexivity.
Defined.

(** ** The bounds *)

Lemma bounds_ok_set_bounds_attr v : preserves bounds_ok (set_bounds_attr v).
Proof.
  intros self H. unfold set_bounds_attr, bind, raise_if, raise, ret, assign.
  destruct (is_sequence v) as [[ | l [ | a [ | r [ | ? ? ]]]] | ]; try exact H.
  destruct (is_int l) eqn:Hl; [ | exact H ].
  destruct (is_int a) eqn:Ha; [ | exact H ].
  destruct (is_int r) eqn:Hr; [ | exact H ].
  simpl. repeat split; assumption.
Qed.

Lemma reachable_bounds_ok {setters : MassSpectrum_setters} p : reachable p -> bounds_ok p.
Proof.
  apply (reachable_invariant bounds_ok).
  - intros rt ms minutes outlier q Hq.
    destruct (Peak_init_fields _ _ _ _ _ Hq) as [_ [Hb _]].
    unfold bounds_ok. rewrite Hb. exact I.
  - apply exec_invariant; try (intros; assumption).
    + intros v. apply frame_set_area; intros; assumption.
    + exact bounds_ok_set_bounds_attr.
    + intros v. apply frame_set_ion_areas; intros; assumption.
    + intros ion area. apply frame_set_ion_area; intros; assumption.
Qed.

(** X3.  The bounds of a peak that exists, when set, are three [int]s; so
    [find_mass_spectrum] with [from_bounds] finds an [int] apex to look
    the spectrum up at, and leaves the peak as it is up to there. *)
Theorem bounds_are_ints {setters : MassSpectrum_setters} (p : Peak)
    (l a r : pyval) :
  reachable p ->
  _pt_bounds p = Some (l, a, r) ->
  (is_int l = true /\ is_int a = true /\ is_int r = true)
  /\ forall data from_bounds,
       truthy from_bounds = true ->
       exists z, as_int a = Some z /\ pt_apex data from_bounds p = (p, Ok z).
Proof.
  intros Hp Hb. pose proof (reachable_bounds_ok p Hp) as Hok.
  unfold bounds_ok in Hok. rewrite Hb in Hok. split; [ exact Hok | ].
  intros data from_bounds Ht. destruct Hok as [_ [Ha _]].
  unfold is_int in Ha. destruct (as_int a) as [z | ] eqn:Hz; [ | discriminate ].
  exists z. split; [ reflexivity | ].
  unfold pt_apex, bind, get. rewrite Ht, Hb, Hz. reflexivity.
Qed.

Lemma bounds_are_ints_witness :
  (is_int (PInt 2) = true /\ is_int (PInt 683) = true /\ is_int (PBool true) = true)
  /\ forall data from_bounds,
       truthy from_bounds = true ->
       exists z, as_int (PInt 683) = Some z
         /\ pt_apex data from_bounds
              (exec (setters := refusing_setters) (CallSetBounds (PInt 2) (PInt 683) (PBool true)) peak_60_50)
            = (exec (setters := refusing_setters) (CallSetBounds (PInt 2) (PInt 683) (PBool true)) peak_60_50, Ok z).
Proof.
  apply (bounds_are_ints (setters := refusing_setters)
           (exec (CallSetBounds (PInt 2) (PInt 683) (PBool true)) peak_60_50)).
  - apply reach_exec.
    apply (reach_init (PFloat (PyNum.dyadic 49 (-2))) (PMassSpectrum ms_50_60_70)
                      (PBool false) (PBool false)).
    vm_compute. reflexivity.
  - reflexivity.
Defined.

(** ** The ion areas *)

Lemma dict_set_int_first d ion z area :
  is_int ion = true ->
  match d with (k, _) :: _ => is_number k = true | [] => True end ->
  match dict_set_int d ion z area with (k, _) :: _ => is_number k = true | [] => True end.
Proof.
  intros Hion Hd. destruct d as [ | [k v] d ]; simpl.
  - unfold is_int in Hion. unfold is_number.
    destruct ion; try discriminate; reflexivity.
  - destruct (match as_num k with Some n => PyNum.eq n (NInt z) | None => false end);
      exact Hd.
Qed.

Lemma ion_areas_ok_set_ion_areas v : preserves ion_areas_ok (set_ion_areas v).
Proof.
  intros self H. unfold set_ion_areas, bind, lift, raise_if, raise, ret, assign.
  destruct v; try exact H.
  destruct d as [ | [k x] d ]; [ exact H | ]. simpl.
  destruct (is_number k) eqn:Hk; [ | exact H ].
  simpl. exact Hk.
Qed.

Lemma ion_areas_ok_set_ion_area ion area : preserves ion_areas_ok (set_ion_area ion area).
Proof.
  intros self H. unfold set_ion_area, bind, get, raise_if, raise, ret, assign.
  destruct (as_int ion) as [z | ] eqn:Hz; [ | exact H ].
  destruct (is_number area); [ | exact H ].
  simpl. unfold ion_areas_ok. simpl.
  apply dict_set_int_first; [ unfold is_int; rewrite Hz; reflexivity | exact H ].
Qed.

Lemma reachable_ion_areas_ok {setters : MassSpectrum_setters} p : reachable p -> ion_areas_ok p.
Proof.
  apply (reachable_invariant ion_areas_ok).
  - intros rt ms minutes outlier q Hq.
    destruct (Peak_init_fields _ _ _ _ _ Hq) as [_ [_ [_ Hi]]].
    unfold ion_areas_ok. rewrite Hi. exact I.
  - apply exec_invariant; try (intros; assumption).
    + intros v. apply frame_set_area; intros; assumption.
    + intros v. apply frame_set_bounds_attr; intros; assumption.
    + exact ion_areas_ok_set_ion_areas.
    + exact ion_areas_ok_set_ion_area.
Qed.

Lemma with_ion_areas_same self : with_ion_areas (_ion_areas self) self = self.
Proof. destruct self; reflexivity. Qed.

(** X4.  What the [ion_areas] getter returns for a peak that exists is a
    mapping with a number as its first key, and assigning it back through
    the [ion_areas] setter returns and leaves the peak unchanged. *)
Theorem ion_areas_read_then_assigned {setters : MassSpectrum_setters} (p : Peak)
    (d : list (pyval * pyval)) :
  reachable p ->
  ion_areas p = Ok d ->
  (exists k v d', d = (k, v) :: d' /\ is_number k = true)
  /\ set_ion_areas (PDict d) p = (p, Ok tt).
Proof.
  intros Hp. pose proof (reachable_ion_areas_ok p Hp) as Hok.
  unfold ion_areas, ion_areas_ok in *.
  destruct (_ion_areas p) as [ | [k v] d' ] eqn:Hd; [ discriminate | ].
  intros [= <-]. split; [ exists k, v, d'; split; [ reflexivity | exact Hok ] | ].
  unfold set_ion_areas, bind, lift, raise_if, raise, ret, assign. simpl.
  rewrite Hok. simpl. rewrite <- Hd, with_ion_areas_same. reflexivity.
Qed.

Lemma ion_areas_read_then_assigned_witness :
  (exists k v d', [(PInt 73, PFloat (PyNum.dyadic 5 (-1)))] = (k, v) :: d'
                  /\ is_number k = true)
  /\ set_ion_areas (PDict [(PInt 73, PFloat (PyNum.dyadic 5 (-1)))])
       (exec (setters := refusing_setters) (CallSetIonArea (PInt 73) (PFloat (PyNum.dyadic 5 (-1)))) peak_60_50)
     = (exec (setters := refusing_setters) (CallSetIonArea (PInt 73) (PFloat (PyNum.dyadic 5 (-1)))) peak_60_50, Ok tt).
Proof.
  apply (ion_areas_read_then_assigned (setters := refusing_setters)
           (exec (CallSetIonArea (PInt 73) (PFloat (PyNum.dyadic 5 (-1)))) peak_60_50)).
  - apply reach_exec.
    apply (reach_init (PFloat (PyNum.dyadic 49 (-2))) (PMassSpectrum ms_50_60_70)
                      (PBool false) (PBool false)).
    vm_compute. reflexivity.
  - reflexivity.
Defined.

(** ** Setters that validate before they assign *)

(** X5.  The setters of the area, the bounds and the ion areas,
    [set_bounds] and [set_ion_area] validate before they assign: when one
    of them raises, the peak is unchanged. *)
Theorem setters_raise_unchanged (self self' : Peak) (e : exn) :
  (exists v, set_area v self = (self', Raise e))
  \/ (exists v, set_bounds_attr v self = (self', Raise e))
  \/ (exists l a r, set_bounds l a r self = (self', Raise e))
  \/ (exists v, set_ion_areas v self = (self', Raise e))
  \/ (exists ion area, set_ion_area ion area self = (self', Raise e)) ->
  self' = self.
Proof.
  assert (Hb : forall v, set_bounds_attr v self = (self', Raise e) -> self' = self).
  { intros v. unfold set_bounds_attr, bind, raise_if, raise, ret, assign.
    destruct (is_sequence v) as [[ | l [ | a [ | r [ | ? ? ]]]] | ];
      try (intros [= <- _]; reflexivity).
    destruct (is_int l); [ | intros [= <- _]; reflexivity ].
    destruct (is_int a); [ | intros [= <- _]; reflexivity ].
    destruct (is_int r); [ discriminate | intros [= <- _]; reflexivity ]. }
  intros [[v H] | [[v H] | [[l [a [r H]]] | [[v H] | [ion [area H]]]]]].
  - revert H. unfold set_area, bind, raise_if, raise, ret, assign.
    destruct (as_num v) as [n | ]; [ | intros [= <- _]; reflexivity ].
    destruct (PyNum.le n (NInt 0)); [ intros [= <- _]; reflexivity | discriminate ].
  - exact (Hb v H).
  - exact (Hb _ H).
  - revert H. unfold set_ion_areas, bind, lift, raise_if, raise, ret, assign.
    destruct v; try (intros [= <- _]; reflexivity).
    destruct (index (map fst d) 0) as [k | e']; [ | intros [= <- _]; reflexivity ].
    destruct (is_number k); [ discriminate | intros [= <- _]; reflexivity ].
  - revert H. unfold set_ion_area, bind, get, raise_if, raise, ret, assign.
    destruct (as_int ion); [ | intros [= <- _]; reflexivity ].
    destruct (is_number area); [ discriminate | intros [= <- _]; reflexivity ].
Qed.

Lemma setters_raise_unchanged_witness :
  fst (set_area (PInt 0) peak_60_50) = peak_60_50.
Proof.
  apply (setters_raise_unchanged peak_60_50 (fst (set_area (PInt 0) peak_60_50))
           (Exn ValueError "'Peak.area' must be a positive number")).
  left. exists (PInt 0). reflexivity.
Defined.

(** ** [set_ion_area] and [get_ion_area] *)

Lemma dict_get_set_same d ion z area n :
  PyNum.eq (NInt z) n = true ->
  dict_get_num (dict_set_int d ion z area) n = Some area
  \/ (as_int ion <> Some z).
Proof.
  intros Hn. destruct (as_int ion) as [z' | ] eqn:Hion; [ | right; discriminate ].
  destruct (Z.eq_dec z' z) as [-> | Hne]; [ left | right; congruence ].
  induction d as [ | [k v] d IH ]; simpl.
  - assert (Hk : as_num ion = Some (NInt z))
      by (destruct ion; try discriminate; simpl in *; congruence).
    rewrite Hk, Hn. reflexivity.
  - destruct (as_num k) as [m | ] eqn:Hk; simpl.
    + destruct (PyNum.eq m (NInt z)) eqn:Hm; simpl; rewrite Hk.
      * rewrite (NumOrder.eq_trans _ _ _ Hm Hn). reflexivity.
      * destruct (PyNum.eq m n) eqn:Hmn; [ | exact IH ].
        rewrite NumOrder.eq_sym in Hn.
        rewrite (NumOrder.eq_trans _ _ _ Hmn Hn) in Hm. discriminate.
    + rewrite Hk. exact IH.
Qed.

Lemma dict_get_set_other d ion z area n :
  PyNum.eq (NInt z) n = false ->
  as_int ion = Some z ->
  dict_get_num (dict_set_int d ion z area) n = dict_get_num d n.
Proof.
  intros Hn Hion. induction d as [ | [k v] d IH ]; simpl.
  - assert (Hk : as_num ion = Some (NInt z))
      by (destruct ion; try discriminate; simpl in *; congruence).
    rewrite Hk, Hn. reflexivity.
  - destruct (as_num k) as [m | ] eqn:Hk; simpl.
    + destruct (PyNum.eq m (NInt z)) eqn:Hm; simpl; rewrite Hk.
      * destruct (PyNum.eq m n) eqn:Hmn; [ | reflexivity ].
        rewrite NumOrder.eq_sym in Hm.
        rewrite (NumOrder.eq_trans _ _ _ Hm Hmn) in Hn. discriminate.
      * destruct (PyNum.eq m n); [ reflexivity | exact IH ].
    + rewrite Hk. exact IH.
Qed.

Lemma set_ion_area_ok ion area self self' :
  set_ion_area ion area self = (self', Ok tt) ->
  exists z, as_int ion = Some z /\ is_number area = true
            /\ self' = with_ion_areas (dict_set_int (_ion_areas self) ion z area) self.
Proof.
  unfold set_ion_area, bind, get, raise_if, raise, ret, assign.
  destruct (as_int ion) as [z | ]; [ | discriminate ].
  destruct (is_number area); [ | discriminate ].
  intros [= <-]. exists z. repeat split.
Qed.

(** X6.  After [set_ion_area(ion, area)] has returned, [get_ion_area]
    gives [area] for [ion] and for every number equal to it, and the
    [ion_areas] getter does not raise. *)
Theorem ion_area_set_then_get (ion area : pyval) (self self' : Peak) :
  set_ion_area ion area self = (self', Ok tt) ->
  exists z, as_int ion = Some z
    /\ (forall n, PyNum.eq (NInt z) n = true -> get_ion_area n self' = Some area)
    /\ ion_areas self' = Ok (_ion_areas self').
Proof.
  intros H. destruct (set_ion_area_ok _ _ _ _ H) as [z [Hz [_ ->]]].
  exists z. split; [ exact Hz | split ].
  - intros n Hn. unfold get_ion_area. simpl.
    destruct (dict_get_set_same (_ion_areas self) ion z area n Hn) as [Hg | Hg];
      [ exact Hg | contradiction ].
  - unfold ion_areas. simpl.
    destruct (_ion_areas self) as [ | [k v] d ]; simpl; [ reflexivity | ].
    destruct (match as_num k with Some n => PyNum.eq n (NInt z) | None => false end);
      reflexivity.
Qed.

Lemma ion_area_set_then_get_witness :
  exists z, as_int (PInt 73) = Some z
    /\ (forall n, PyNum.eq (NInt z) n = true ->
          get_ion_area n (fst (set_ion_area (PInt 73) (PInt 5) peak_60_50)) = Some (PInt 5))
    /\ ion_areas (fst (set_ion_area (PInt 73) (PInt 5) peak_60_50))
       = Ok (_ion_areas (fst (set_ion_area (PInt 73) (PInt 5) peak_60_50))).
Proof.
  apply (ion_area_set_then_get (PInt 73) (PInt 5) peak_60_50). reflexivity.
Defined.

(** X7.  [set_ion_area(ion, area)] changes the area of no other ion:
    for a number [n] not equal to [ion], [get_ion_area(n)] gives after the
    call what it gave before. *)
Theorem ion_area_set_keeps_others (ion area : pyval) (self self' : Peak) (z : Z) (n : num) :
  set_ion_area ion area self = (self', Ok tt) ->
  as_int ion = Some z ->
  PyNum.eq (NInt z) n = false ->
  get_ion_area n self' = get_ion_area n self.
Proof.
  intros H Hz Hn. destruct (set_ion_area_ok _ _ _ _ H) as [z' [Hz' [_ ->]]].
  assert (z' = z) by congruence. subst z'.
  unfold get_ion_area. simpl. apply dict_get_set_other; assumption.
Qed.

Lemma ion_area_set_keeps_others_witness :
  get_ion_area (NInt 74) (fst (set_ion_area (PInt 73) (PInt 5) peak_60_50))
  = get_ion_area (NInt 74) peak_60_50.
Proof.
  apply (ion_area_set_keeps_others (PInt 73) (PInt 5) peak_60_50 _ 73 (NInt 74));
    reflexivity.
Defined.

(** ** [get_int_of_ion] *)

Lemma list_index_some l x : forall i,
  list_index l x = Some i <->
  exists m, nth_error l i = Some m /\ PyNum.eq m x = true
            /\ forall j m', (j < i)%nat -> nth_error l j = Some m' -> PyNum.eq m' x = false.
Proof.
  induction l as [ | y l IH ]; intros i; simpl.
  - split; [ discriminate | ]. intros [m [H _]]. destruct i; discriminate.
  - destruct (PyNum.eq y x) eqn:Hy.
    + split.
      * intros [= <-]. exists y. repeat split; [ exact Hy | ]. intros j m' Hj. lia.
      * intros [m [Hm [_ Hfirst]]]. destruct i as [ | i ]; [ reflexivity | ].
        rewrite (Hfirst 0%nat y) in Hy; [ discriminate | lia | reflexivity ].
    + split.
      * destruct (list_index l x) as [i' | ] eqn:Hi; [ | discriminate ].
        intros [= <-]. destruct (proj1 (IH i') eq_refl) as [m [Hm [Hmx Hfirst]]].
        exists m. repeat split; try assumption.
        intros [ | j ] m' Hj; simpl; [ intros [= <-]; exact Hy | ].
        apply Hfirst. lia.
      * intros [m [Hm [Hmx Hfirst]]]. destruct i as [ | i ]; simpl in Hm.
        { injection Hm as ->. rewrite Hmx in Hy. discriminate. }
        assert (Hi : list_index l x = Some i).
        { apply IH. exists m. repeat split; try assumption.
          intros j m' Hj Hnth. apply (Hfirst (S j) m'); [ lia | exact Hnth ]. }
        rewrite Hi. reflexivity.
Qed.




Example get_int_of_ion_60 :
  get_int_of_ion (NFloat (PyNum.dyadic 60 0)) peak_60_50 = Ok (NInt 5)
  /\ get_int_of_ion (NInt 61) peak_60_50
     = Raise (Exn IndexError "'ion' out of range of mass spectrum").
Proof. split; reflexivity. Qed.

(** ** Lists of [int]s *)

Lemma int_compare a b : PyNum.compare (NInt a) (NInt b) = Some (Z.compare a b).
Proof.
  unfold PyNum.compare. simpl. unfold Qcompare. simpl. rewrite !Z.mul_1_r. reflexivity.
Qed.

Lemma int_lt a b : PyNum.lt (NInt a) (NInt b) = (a <? b).
Proof. unfold PyNum.lt, Z.ltb. rewrite int_compare. reflexivity. Qed.

Lemma int_gt a b : PyNum.gt (NInt a) (NInt b) = (b <? a).
Proof. rewrite NumOrder.gt_lt. apply int_lt. Qed.

Lemma int_eq a b : PyNum.eq (NInt a) (NInt b) = (a =? b).
Proof.
  unfold PyNum.eq. rewrite int_compare.
  destruct (Z.compare_spec a b) as [-> | H | H]; symmetry;
    [ apply Z.eqb_refl | apply Z.eqb_neq; lia | apply Z.eqb_neq; lia ].
Qed.

Lemma min_from_ints l : forall m,
  exists lo, min_from (NInt m) (ints l) = NInt lo /\ lo <= m /\ Forall (fun x => lo <= x) l.
Proof.
  induction l as [ | x l IH ]; intros m; simpl.
  - exists m. repeat split; [ lia | constructor ].
  - rewrite int_lt. destruct (Z.ltb_spec x m).
    + destruct (IH x) as [lo [-> [Hlo Hall]]]. exists lo. repeat split; [ lia | ].
      constructor; assumption.
    + destruct (IH m) as [lo [-> [Hlo Hall]]]. exists lo. repeat split; [ lia | ].
      constructor; [ lia | assumption ].
Qed.

Lemma max_from_ints l : forall m,
  exists hi, max_from (NInt m) (ints l) = NInt hi /\ m <= hi /\ Forall (fun x => x <= hi) l.
Proof.
  induction l as [ | x l IH ]; intros m; simpl.
  - exists m. repeat split; [ lia | constructor ].
  - rewrite int_gt. destruct (Z.ltb_spec m x).
    + destruct (IH x) as [hi [-> [Hhi Hall]]]. exists hi. repeat split; [ lia | ].
      constructor; assumption.
    + destruct (IH m) as [hi [-> [Hhi Hall]]]. exists hi. repeat split; [ lia | ].
      constructor; [ lia | assumption ].
Qed.

Lemma py_min_ints zs :
  zs <> [] -> exists lo, py_min (ints zs) = Ok (NInt lo) /\ Forall (fun x => lo <= x) zs.
Proof.
  destruct zs as [ | z zs ]; [ contradiction | intros _ ]. simpl.
  destruct (min_from_ints zs z) as [lo [-> [Hlo Hall]]].
  exists lo. split; [ reflexivity | constructor; assumption ].
Qed.

Lemma py_max_ints zs :
  zs <> [] -> exists hi, py_max (ints zs) = Ok (NInt hi) /\ Forall (fun x => x <= hi) zs.
Proof.
  destruct zs as [ | z zs ]; [ contradiction | intros _ ]. simpl.
  destruct (max_from_ints zs z) as [hi [-> [Hhi Hall]]].
  exists hi. split; [ reflexivity | constructor; assumption ].
Qed.

Lemma abs_diffs_ints z zs :
  abs_diffs (NInt z) (ints zs) = Ok (ints (map (fun m => Z.abs (m - z)) zs)).
Proof.
  induction zs as [ | m zs IH ]; simpl; [ reflexivity | ].
  rewrite IH. reflexivity.
Qed.

(** ** [null_mass], then [get_int_of_ion] *)

(** What [null_mass] does once the mass is in range and the scan has
    stopped at [ix]. *)
Lemma null_mass_run self ms mass m lo hi ds spec' :
  _mass_spectrum self = Some ms ->
  as_num mass = Some m ->
  py_min (mass_list ms) = Ok lo ->
  py_max (mass_list ms) = Ok hi ->
  PyNum.lt m lo = false -> PyNum.gt m hi = false ->
  abs_diffs m (mass_list ms) = Ok ds ->
  set_item (mass_spec ms) (nearest_scan ds 0 hi 0) (NInt 0) = Ok spec' ->
  null_mass mass self
  = make_UID (with_mass_spectrum (Some (mkMS (mass_list ms) spec')) self).
Proof.
  intros Hms Hm Hlo Hhi Hlt Hgt Hds Hset.
  unfold null_mass, bind, get, lift, raise_if, raise, ret, assign_mass_spec, assign.
  rewrite Hms, Hm, Hlo, Hlt, Hhi, Hgt.
  rewrite (null_scan_diffs _ _ _ _ _ _ Hds), Hset, Hms.
  reflexivity.
Qed.

(** X9.  On a mass list of [int]s of which one is positive, nulling a
    mass [z] of the list makes [get_int_of_ion(z)] return 0, whether the
    [make_UID] that ends [null_mass] returns or raises. *)
Theorem null_mass_then_get_int_of_ion (self : Peak) (zs : list Z) (spec : list num) (z : Z) :
  _mass_spectrum self = Some (mkMS (ints zs) spec) ->
  List.length zs = List.length spec ->
  In z zs ->
  Exists (fun m => 0 < m) zs ->
  get_int_of_ion (NInt z) (fst (null_mass (PInt z) self)) = Ok (NInt 0).
Proof.
  intros Hms Hlen Hin Hpos.
  assert (Hne : zs <> []) by (destruct zs; [ contradiction | discriminate ]).
  destruct (py_min_ints zs Hne) as [lo [Hlo Hlo_all]].
  destruct (py_max_ints zs Hne) as [hi [Hhi Hhi_all]].
  rewrite Forall_forall in Hlo_all, Hhi_all.
  assert (Hhi_pos : 0 < hi).
  { rewrite Exists_exists in Hpos. destruct Hpos as [m [Hm Hm0]].
    specialize (Hhi_all m Hm). lia. }
  set (ds := map (fun m => Z.abs (m - z)) zs).
  (* the scan stops at the first index of [z] *)
  destruct (nearest_scan_spec (ints ds) 0 (NInt hi) 0)
    as [[Hall _] | [ix [d [Hix [Hscan [_ [Hmin Hfirst]]]]]]].
  { exfalso. rewrite Forall_forall in Hall.
    assert (Hd : In (NInt (Z.abs (z - z))) (ints ds))
      by (unfold ds, ints; rewrite map_map; apply (in_map (fun m => NInt (Z.abs (m - z)))), Hin).
    specialize (Hall _ Hd). rewrite int_lt in Hall.
    destruct (Z.ltb_spec (Z.abs (z - z)) hi); [ discriminate | lia ]. }
  simpl in Hscan.
  unfold ints, ds in Hix. rewrite map_map, nth_error_map in Hix.
  destruct (nth_error zs ix) as [m | ] eqn:Hm; [ | discriminate ].
  simpl in Hix. injection Hix as <-.
  assert (Hmz : m = z).
  { destruct (In_nth_error _ _ Hin) as [k Hk].
    specialize (Hmin k (NInt (Z.abs (z - z)))).
    unfold ints, ds in Hmin. rewrite map_map, nth_error_map, Hk in Hmin.
    specialize (Hmin eq_refl). rewrite int_lt in Hmin.
    destruct (Z.ltb_spec (Z.abs (z - z)) (Z.abs (m - z))); [ discriminate | lia ]. }
  subst m.
  assert (Hindex : list_index (ints zs) (NInt z) = Some ix).
  { apply list_index_some. exists (NInt z). unfold ints. rewrite nth_error_map, Hm.
    repeat split; [ rewrite int_eq; apply Z.eqb_refl | ].
    intros j m' Hj Hnth. rewrite nth_error_map in Hnth.
    destruct (nth_error zs j) as [zj | ] eqn:Hzj; [ | discriminate ].
    injection Hnth as <-.
    specialize (Hfirst j (NInt (Z.abs (zj - z))) Hj).
    unfold ints, ds in Hfirst. rewrite map_map, nth_error_map, Hzj in Hfirst.
    specialize (Hfirst eq_refl). rewrite int_eq in *.
    destruct (Z.eqb_spec zj z); [ | reflexivity ].
    subst zj. rewrite Z.eqb_refl in Hfirst. discriminate. }
  (* the state that [null_mass] leaves *)
  destruct (set_item_ok spec ix (NInt 0)) as [spec' [Hset [_ [Hnth _]]]].
  { rewrite <- Hlen. apply nth_error_Some. rewrite Hm. discriminate. }
  assert (Hrun : null_mass (PInt z) self
                 = make_UID (with_mass_spectrum (Some (mkMS (ints zs) spec')) self)).
  { apply (null_mass_run self (mkMS (ints zs) spec) (PInt z) (NInt z) (NInt lo) (NInt hi)
             (ints ds)); try assumption; try reflexivity.
    - rewrite int_lt. apply Z.ltb_ge. apply Hlo_all, Hin.
    - rewrite int_gt. apply Z.ltb_ge. apply Hhi_all, Hin.
    - apply abs_diffs_ints.
    - rewrite Hscan. exact Hset. }
  rewrite Hrun.
  destruct (make_UID_frame (with_mass_spectrum (Some (mkMS (ints zs) spec')) self))
    as [u ->].
  unfold get_int_of_ion. simpl. rewrite Hindex, Hnth. reflexivity.
Qed.

Lemma null_mass_then_get_int_of_ion_witness :
  get_int_of_ion (NInt 60) (fst (null_mass (PInt 60) peak_60_50)) = Ok (NInt 0).
Proof.
  apply (null_mass_then_get_int_of_ion peak_60_50 [50; 60; 70] (ints [1; 5; 3]) 60).
  - reflexivity.
  - reflexivity.
  - right. left. reflexivity.
  - apply Exists_cons_hd. lia.
Defined.

(** ** The UID after operations that return *)

Lemma consistent_make_UID self self' :
  make_UID self = (self', Ok tt) -> consistent self'.
Proof.
  rewrite make_UID_spec. unfold consistent.
  destruct (compute_UID self) as [u | e] eqn:Hu; [ | discriminate ].
  intros [= <-]. rewrite compute_UID_with_UID. exact Hu.
Qed.

Lemma bind_ends {A B} (Q : Peak -> Prop) (m : M A) (k : A -> M B) self self' b :
  (forall a s, k a s = (self', Ok b) -> Q self') ->
  bind m k self = (self', Ok b) -> Q self'.
Proof.
  intros Hk. unfold bind. destruct (m self) as [s [a | e]]; [ apply Hk | discriminate ].
Qed.

Ltac bind_end :=
  match goal with
  | |- bind _ _ _ = _ -> _ => apply bind_ends; intros ? ?
  end.

Lemma consistent_run {setters : MassSpectrum_setters} o self self' :
  consistent self -> run o self = (self', Ok tt) -> consistent self'.
Proof.
  intros Hc. destruct o; simpl.
  - unfold set_area, bind, raise_if, raise, ret, assign.
    destruct (as_num value) as [n | ]; [ | discriminate ].
    destruct (PyNum.le n (NInt 0)); [ discriminate | ]. intros [= <-]. exact Hc.
  - unfold set_bounds_attr, bind, raise_if, raise, ret, assign.
    destruct (is_sequence value) as [[ | l [ | a [ | r [ | ? ? ]]]] | ]; try discriminate.
    destruct (is_int l), (is_int a), (is_int r); try discriminate.
    intros [= <-]. exact Hc.
  - unfold set_bounds, set_bounds_attr, bind, raise_if, raise, ret, assign. simpl.
    destruct (is_int left), (is_int apex), (is_int right); try discriminate.
    intros [= <-]. exact Hc.
  - unfold forget.
    destruct (crop_mass mass_min mass_max self) as [s [w | e]] eqn:Hcrop; [ | discriminate ].
    intros [= <-]. revert Hcrop. unfold crop_mass.
    apply bind_ends. intros [ms | ] s0; [ | discriminate ].
    destruct (as_num mass_min), (as_num mass_max); try discriminate.
    repeat bind_end.
    match goal with |- context [match fst ?new with _ => _ end] => destruct (fst new) end;
      [ discriminate | ].
    unfold bind.
    match goal with |- context [make_UID ?x] =>
      pose proof (consistent_make_UID x) as Hm; destruct (make_UID x) as [s' [ [] | e ]]
    end; [ | discriminate ].
    intros [= <- _]. apply Hm. reflexivity.
  - unfold set_ic_mass. repeat bind_end. apply consistent_make_UID.
  - unfold set_ion_areas, bind, lift, raise_if, raise, ret, assign.
    destruct value; try discriminate.
    destruct (index (map fst d) 0) as [k | ]; [ | discriminate ].
    destruct (is_number k); [ | discriminate ]. intros [= <-]. exact Hc.
  - apply consistent_make_UID.
  - unfold set_mass_spectrum. destruct value; try discriminate.
    repeat bind_end. apply consistent_make_UID.
  - unfold null_mass. apply bind_ends. intros [ms | ] s0; [ | discriminate ].
    destruct (as_num mass); [ | discriminate ].
    repeat bind_end. apply consistent_make_UID.
  - unfold set_ion_area, bind, get, raise_if, raise, ret, assign.
    destruct (as_int ion); [ | discriminate ].
    destruct (is_number area); [ | discriminate ]. intros [= <-]. exact Hc.
  - unfold find_mass_spectrum. destruct data; [ | discriminate ].
    repeat bind_end. apply consistent_make_UID.
  - intros [= <-]. exact Hc.
Qed.

Lemma consistent_Peak_init rt ms minutes outlier p :
  Peak_init rt ms minutes outlier = Ok p -> consistent p.
Proof.
  unfold Peak_init. destruct (as_num rt) as [rt' | ]; [ | discriminate ].
  destruct (truthy ms && negb (is_MassSpectrum ms) && negb (is_number ms));
    [ discriminate | ].
  destruct (if truthy minutes then _ else _) as [rt1 | ]; [ | discriminate ].
  cbn [rbind]. destruct (PyNum.to_float rt1) as [rtf | ]; [ | discriminate ].
  cbn [rbind].
  match goal with |- context [make_UID ?s] =>
    pose proof (consistent_make_UID s) as Hok; destruct (make_UID s) as [s' [ [] | e ]]
  end; [ | discriminate ].
  intros [= <-]. apply Hok. reflexivity.
Qed.

(** X10.  After the constructor and any number of operations that have
    all returned, the UID is the one that [make_UID] computes from the
    state: calling [make_UID] again changes nothing. *)
Theorem UID_consistent {setters : MassSpectrum_setters} (p : Peak) :
  reachable_ok p ->
  compute_UID p = Ok (_UID p) /\ make_UID p = (p, Ok tt).
Proof.
  intros Hp.
  assert (Hc : consistent p).
  { induction Hp as [rt ms minutes outlier p Hp | o p p' _ IH Hrun].
    - exact (consistent_Peak_init _ _ _ _ _ Hp).
    - exact (consistent_run o p p' IH Hrun). }
  split; [ exact Hc | ].
  rewrite make_UID_spec. unfold consistent in Hc. rewrite Hc, with_UID_same. reflexivity.
Qed.

Lemma UID_consistent_witness :
  compute_UID (fst (null_mass (PInt 60) peak_60_50))
  = Ok (_UID (fst (null_mass (PInt 60) peak_60_50)))
  /\ make_UID (fst (null_mass (PInt 60) peak_60_50))
     = (fst (null_mass (PInt 60) peak_60_50), Ok tt).
Proof.
  apply (UID_consistent (setters := refusing_setters)
           (fst (null_mass (PInt 60) peak_60_50))).
  apply (reach_ok_run (CallNullMass (PInt 60)) peak_60_50).
  - apply (reach_ok_init (PFloat (PyNum.dyadic 49 (-2))) (PMassSpectrum ms_50_60_70)
                         (PBool false) (PBool false)).
    vm_compute. reflexivity.
  - vm_compute. reflexivity.
Defined.

(** ** The [ic_mass] setter and a number that [int] rejects *)

(** X11.  The [ic_mass] setter is not atomic.  For a number that [int]
    rejects, which is a NaN or an infinity, it raises the error of [int]
    after it has stored the number and cleared the mass spectrum; the UID
    is left as it was. *)
Theorem set_ic_mass_int_fails (self : Peak) (value : pyval) (e : exn) :
  is_number value = true ->
  py_int value = Raise e ->
  (value = PFloat S754_nan \/ exists s, value = PFloat (S754_infinity s))
  /\ set_ic_mass value self
     = (with_mass_spectrum None (with_ic_mass value self), Raise e).
Proof.
  intros Hnum Hint. split.
  - destruct value; try discriminate. destruct f; try discriminate; eauto.
  - unfold set_ic_mass, bind, raise_if, raise, ret, assign. rewrite Hnum. simpl.
    rewrite make_UID_spec. unfold compute_UID. simpl.
    destruct value; try discriminate; unfold ion_UID; rewrite Hint; reflexivity.
Qed.

Lemma set_ic_mass_int_fails_witness :
  (PFloat S754_nan = PFloat S754_nan \/ exists s, PFloat S754_nan = PFloat (S754_infinity s))
  /\ set_ic_mass (PFloat S754_nan) peak_60_50
     = (with_mass_spectrum None (with_ic_mass (PFloat S754_nan) peak_60_50),
        Raise (Exn ValueError "cannot convert float NaN to integer")).
Proof.
  apply (set_ic_mass_int_fails peak_60_50 (PFloat S754_nan)); reflexivity.
Defined.

(** ** [crop_mass] when it returns *)

Lemma skipn_cons {A} (l : list A) : forall ii y rest,
  skipn ii l = y :: rest -> nth_error l ii = Some y /\ skipn (S ii) l = rest.
Proof.
  induction l as [ | x l IH ]; intros [ | ii ] y rest; simpl; try discriminate.
  - intros [= -> ->]. split; reflexivity.
  - intros H. apply IH in H. exact H.
Qed.

Lemma crop_scan_filter lo hi ml : forall rest spec ii new_ml new_spec,
  skipn ii spec = rest ->
  List.length ml = List.length rest ->
  crop_scan lo hi ml spec ii new_ml new_spec
  = Ok ((new_ml ++ map fst (filter (in_range lo hi) (combine ml rest)))%list,
        (new_spec ++ map snd (filter (in_range lo hi) (combine ml rest)))%list).
Proof.
  induction ml as [ | mass ml IH ]; intros rest spec ii new_ml new_spec Hskip Hlen; simpl.
  - rewrite !app_nil_r. reflexivity.
  - destruct rest as [ | y rest ]; [ discriminate | ].
    destruct (skipn_cons _ _ _ _ Hskip) as [Hnth Hskip'].
    cbn [combine filter].
    assert (E : in_range lo hi (mass, y) = PyNum.le lo mass && PyNum.le mass hi)
      by reflexivity.
    rewrite E. destruct (PyNum.le lo mass && PyNum.le mass hi).
    + unfold index. rewrite Hnth. cbn [rbind].
      rewrite (IH rest) by (try assumption; simpl in Hlen; lia).
      cbn [map fst snd]. rewrite <- !app_assoc. reflexivity.
    + apply IH; [ assumption | simpl in Hlen; lia ].
Qed.

(** X12.  When [crop_mass(mass_min, mass_max)] returns on a spectrum with
    as many masses as intensities, the spectrum is made of the pairs of a
    mass and its intensity whose mass is in [mass_min, mass_max], in
    their order, at least one; the UID is the one of the new state,
    nothing else has changed, and one warning is issued exactly when
    fewer than 10 pairs are kept. *)
Theorem crop_mass_returns {setters : MassSpectrum_setters}
    (self self' : Peak) (ms : MassSpectrum)
    (mass_min mass_max : pyval) (warnings : list string) :
  _mass_spectrum self = Some ms ->
  List.length (mass_list ms) = List.length (mass_spec ms) ->
  crop_mass mass_min mass_max self = (self', Ok warnings) ->
  exists lo hi kept uid,
    as_num mass_min = Some lo /\ as_num mass_max = Some hi
    /\ kept = filter (in_range lo hi) (combine (mass_list ms) (mass_spec ms))
    /\ kept <> []
    /\ self' = with_UID uid
                 (with_mass_spectrum (Some (mkMS (map fst kept) (map snd kept))) self)
    /\ compute_UID self' = Ok uid
    /\ warnings = (if (List.length kept <? 10)%nat
                   then ["peak mass spectrum contains < 10 points"] else []).
Proof.
  intros Hms Hlen.
  unfold crop_mass, bind, get, raise, raise_if, lift, ret.
  rewrite Hms.
  destruct (as_num mass_min) as [lo | ]; [ | discriminate ].
  destruct (as_num mass_max) as [hi | ]; [ | discriminate ].
  destruct (PyNum.ge lo hi); [ discriminate | ].
  destruct (py_min (mass_list ms)) as [smallest | ]; [ | discriminate ].
  destruct (PyNum.lt lo smallest); [ discriminate | ].
  destruct (py_max (mass_list ms)) as [largest | ]; [ | discriminate ].
  destruct (PyNum.gt hi largest); [ discriminate | ].
  rewrite (crop_scan_filter lo hi (mass_list ms) (mass_spec ms) (mass_spec ms) 0 [] []
             eq_refl Hlen).
  cbn [app fst snd].
  remember (filter (in_range lo hi) (combine (mass_list ms) (mass_spec ms))) as kept
    eqn:Hkept_def.
  unfold set_mass_list, set_mass_spec, on_spectrum. rewrite Hms.
  destruct kept as [ | [m y] kept' ].
  - cbn [map MassSpectrum_set_mass_list].
    destruct (set_empty_mass_list ms) as [ms1 [[] | e]]; [ | discriminate ].
    cbn [_mass_spectrum with_mass_spectrum MassSpectrum_set_mass_spec].
    destruct (set_empty_mass_spec ms1) as [ms2 [[] | e]]; discriminate.
  - remember ((m, y) :: kept') as kept eqn:Hkept.
    assert (Hfst : map fst kept = m :: map fst kept') by (subst kept; reflexivity).
    assert (Hsnd : map snd kept = y :: map snd kept') by (subst kept; reflexivity).
    rewrite Hfst, Hsnd. simpl. rewrite <- Hfst, <- Hsnd.
    match goal with |- context [make_UID ?s] =>
      pose proof (make_UID_spec s) as Hspec; destruct (make_UID s) as [s' [ [] | e ]]
    end; [ | discriminate ].
    intros [= <- <-].
    destruct (compute_UID _) as [uid | ] eqn:Huid in Hspec; [ | discriminate ].
    injection Hspec as ->.
    exists lo, hi, kept, uid. repeat split.
    + exact Hkept_def.
    + subst kept. discriminate.
    + rewrite compute_UID_with_UID. exact Huid.
    + rewrite Hkept. simpl. rewrite length_map. reflexivity.
Qed.

Lemma crop_mass_returns_witness :
  exists lo hi kept uid,
    as_num (PInt 55) = Some lo /\ as_num (PInt 70) = Some hi
    /\ kept = filter (in_range lo hi)
                (combine (mass_list ms_50_60_70) (mass_spec ms_50_60_70))
    /\ kept <> []
    /\ fst (crop_mass (setters := refusing_setters) (PInt 55) (PInt 70) peak_60_50)
       = with_UID uid
           (with_mass_spectrum (Some (mkMS (map fst kept) (map snd kept))) peak_60_50)
    /\ compute_UID
         (fst (crop_mass (setters := refusing_setters) (PInt 55) (PInt 70) peak_60_50))
       = Ok uid
    /\ ["peak mass spectrum contains < 10 points"]
       = (if (List.length kept <? 10)%nat
          then ["peak mass spectrum contains < 10 points"] else []).
Proof.
  apply (crop_mass_returns (setters := refusing_setters) peak_60_50
           (fst (crop_mass (PInt 55) (PInt 70) peak_60_50))
           ms_50_60_70 (PInt 55) (PInt 70)); reflexivity.
Defined.

(** ** [crop_mass] to the whole range *)

Lemma num_le_trans a b c :
  PyNum.le a b = true -> PyNum.le b c = true -> PyNum.le a c = true.
Proof. NumOrder.by_exact_value. Qed.

Lemma num_le_refl a : PyNum.is_nan a = false -> PyNum.le a a = true.
Proof. NumOrder.by_exact_value. Qed.

Lemma num_lt_le a b : PyNum.lt a b = true -> PyNum.le a b = true.
Proof. NumOrder.by_exact_value. Qed.

Lemma num_lt_not_ge a b : PyNum.lt a b = true -> PyNum.ge a b = false.
Proof. NumOrder.by_exact_value. Qed.

Lemma min_from_le l : forall m,
  PyNum.is_nan m = false -> no_nan l ->
  PyNum.is_nan (min_from m l) = false
  /\ PyNum.le (min_from m l) m = true
  /\ Forall (fun x => PyNum.le (min_from m l) x = true) l.
Proof.
  induction l as [ | x l IH ]; intros m Hm Hl; simpl.
  - repeat split; [ exact Hm | apply num_le_refl, Hm | constructor ].
  - inversion Hl as [ | ? ? Hx Hl' ]; subst.
    destruct (PyNum.lt x m) eqn:Hlt.
    + destruct (IH x Hx Hl') as [Hn [Hle Hall]]. repeat split; [ exact Hn | | ].
      * eapply num_le_trans; [ exact Hle | apply num_lt_le, Hlt ].
      * constructor; assumption.
    + destruct (IH m Hm Hl') as [Hn [Hle Hall]]. repeat split; try assumption.
      constructor; [ | assumption ].
      eapply num_le_trans; [ exact Hle | apply NumOrder.not_lt_le; assumption ].
Qed.

Lemma max_from_le l : forall m,
  PyNum.is_nan m = false -> no_nan l ->
  PyNum.is_nan (max_from m l) = false
  /\ PyNum.le m (max_from m l) = true
  /\ Forall (fun x => PyNum.le x (max_from m l) = true) l.
Proof.
  induction l as [ | x l IH ]; intros m Hm Hl; simpl.
  - repeat split; [ exact Hm | apply num_le_refl, Hm | constructor ].
  - inversion Hl as [ | ? ? Hx Hl' ]; subst. rewrite NumOrder.gt_lt.
    destruct (PyNum.lt m x) eqn:Hlt.
    + destruct (IH x Hx Hl') as [Hn [Hle Hall]]. repeat split; [ exact Hn | | ].
      * eapply num_le_trans; [ apply num_lt_le, Hlt | exact Hle ].
      * constructor; assumption.
    + destruct (IH m Hm Hl') as [Hn [Hle Hall]]. repeat split; try assumption.
      constructor; [ | assumption ].
      eapply num_le_trans; [ exact (NumOrder.not_lt_le m x Hm Hx Hlt) | exact Hle ].
Qed.

Lemma filter_all {A} (f : A -> bool) l :
  Forall (fun x => f x = true) l -> filter f l = l.
Proof.
  induction 1 as [ | x l Hx _ IH ]; simpl; [ reflexivity | ].
  rewrite Hx, IH. reflexivity.
Qed.

Lemma map_fst_combine {A B} (l1 : list A) : forall (l2 : list B),
  List.length l1 = List.length l2 -> map fst (combine l1 l2) = l1.
Proof.
  induction l1 as [ | x l1 IH ]; intros [ | y l2 ]; simpl; try discriminate.
  - reflexivity.
  - intros [= H]. rewrite IH by exact H. reflexivity.
Qed.

Lemma as_num_of_num n : as_num (of_num n) = Some n.
Proof. destruct n; reflexivity. Qed.

Lemma with_mass_spectrum_same self ms :
  _mass_spectrum self = Some ms ->
  with_mass_spectrum (Some (mkMS (mass_list ms) (mass_spec ms))) self = self.
Proof. destruct self, ms. simpl. intros ->. reflexivity. Qed.

(** X13.  Cropping to the whole range is the identity: on a peak whose UID
    is up to date and whose mass list holds no NaN and has its least mass
    below its greatest, [crop_mass(min(mass_list), max(mass_list))]
    returns and leaves the peak unchanged. *)
Theorem crop_mass_whole_range {setters : MassSpectrum_setters}
    (self : Peak) (ms : MassSpectrum) (lo hi : num) :
  _mass_spectrum self = Some ms ->
  List.length (mass_list ms) = List.length (mass_spec ms) ->
  no_nan (mass_list ms) ->
  py_min (mass_list ms) = Ok lo ->
  py_max (mass_list ms) = Ok hi ->
  PyNum.lt lo hi = true ->
  make_UID self = (self, Ok tt) ->
  crop_mass (of_num lo) (of_num hi) self
  = (self, Ok (if (List.length (mass_list ms) <? 10)%nat
               then ["peak mass spectrum contains < 10 points"] else [])).
Proof.
  intros Hms Hlen Hnan Hlo Hhi Hlt Huid.
  assert (Hall : Forall (fun x => PyNum.le lo x = true /\ PyNum.le x hi = true)
                        (mass_list ms)).
  { destruct (mass_list ms) as [ | m l ]; [ constructor | ].
    simpl in Hlo, Hhi. injection Hlo as <-. injection Hhi as <-.
    inversion Hnan as [ | ? ? Hm Hl ]; subst.
    destruct (min_from_le l m Hm Hl) as [_ [Hmin Hmin_all]].
    destruct (max_from_le l m Hm Hl) as [_ [Hmax Hmax_all]].
    constructor; [ split; assumption | ].
    rewrite Forall_forall in *. intros x Hx. split; auto. }
  assert (Hkept : filter (in_range lo hi) (combine (mass_list ms) (mass_spec ms))
                  = combine (mass_list ms) (mass_spec ms)).
  { apply filter_all. rewrite Forall_forall in *. intros [m y] Hin.
    apply in_combine_l in Hin. destruct (Hall m Hin) as [H1 H2].
    unfold in_range. simpl. rewrite H1, H2. reflexivity. }
  unfold crop_mass, bind, get, raise, raise_if, lift, ret.
  rewrite Hms, !as_num_of_num, (num_lt_not_ge _ _ Hlt), Hlo, NumOrder.lt_irrefl, Hhi.
  rewrite NumOrder.gt_lt, NumOrder.lt_irrefl.
  rewrite (crop_scan_filter lo hi (mass_list ms) (mass_spec ms) (mass_spec ms) 0 [] []
             eq_refl Hlen).
  rewrite Hkept, map_fst_combine, map_snd_combine by assumption.
  cbn [app fst snd].
  unfold set_mass_list, set_mass_spec, on_spectrum. rewrite Hms.
  pose proof (with_mass_spectrum_same self ms Hms) as Hsame.
  destruct (mass_list ms) as [ | m l ]; [ simpl in Hlo; discriminate | ].
  destruct (mass_spec ms) as [ | y spec ]; [ simpl in Hlen; discriminate | ].
  cbn [MassSpectrum_set_mass_list MassSpectrum_set_mass_spec
       _mass_spectrum with_mass_spectrum mass_list mass_spec].
  match goal with |- context [make_UID ?s] =>
    replace s with self by (symmetry; exact Hsame)
  end.
  rewrite Huid. reflexivity.
Qed.

Lemma crop_mass_whole_range_witness :
  crop_mass (setters := refusing_setters) (of_num (NInt 50)) (of_num (NInt 70)) peak_60_50
  = (peak_60_50, Ok (if (List.length (mass_list ms_50_60_70) <? 10)%nat
                     then ["peak mass spectrum contains < 10 points"] else [])).
Proof.
  apply (crop_mass_whole_range (setters := refusing_setters)
           peak_60_50 ms_50_60_70 (NInt 50) (NInt 70));
    try reflexivity.
  apply ints_no_nan.
Defined.

(** ** The masses of the UID *)

(** Where the scan of [make_UID] stops. *)
Lemma uid_scan_spec l : forall ii best best_ii best2_ii,
  (Forall (fun x => PyNum.gt x best = false) l
   /\ uid_scan l ii best best_ii best2_ii = (best, best_ii, best2_ii))
  \/ exists j x,
       nth_error l j = Some x
       /\ fst (uid_scan l ii best best_ii best2_ii) = (x, (ii + j)%nat)
       /\ PyNum.gt x best = true
       /\ Forall (fun y => PyNum.gt y x = false) l
       /\ (forall k y, (k < j)%nat -> nth_error l k = Some y -> PyNum.eq y x = false)
       /\ snd (uid_scan l ii best best_ii best2_ii)
          = snd (fst (uid_scan (firstn j l) ii best best_ii best2_ii)).
Proof.
  induction l as [ | x0 l IH ]; intros ii best bi b2; simpl.
  - left. split; [ constructor | reflexivity ].
  - destruct (PyNum.gt x0 best) eqn:H0.
    + right. rewrite NumOrder.gt_lt in H0.
      destruct (IH (S ii) x0 ii bi) as [[Hall ->] | [j [x [Hj [Hfst [Hgt [Hall [Hfirst Hsnd]]]]]]]].
      * exists 0%nat, x0. repeat split.
        -- simpl. f_equal. lia.
        -- rewrite NumOrder.gt_lt. exact H0.
        -- constructor; [ rewrite NumOrder.gt_lt; apply NumOrder.lt_irrefl | exact Hall ].
        -- intros k y Hk. lia.
      * exists (S j), x. rewrite NumOrder.gt_lt in Hgt. repeat split.
        -- exact Hj.
        -- rewrite Hfst. f_equal. lia.
        -- rewrite NumOrder.gt_lt. eapply NumOrder.lt_trans; eassumption.
        -- constructor; [ | exact Hall ].
           rewrite NumOrder.gt_lt. apply NumOrder.lt_asym. exact Hgt.
        -- intros [ | k ] y Hk; simpl.
           ++ intros [= <-]. apply NumOrder.lt_not_eq. exact Hgt.
           ++ apply Hfirst. lia.
        -- simpl. rewrite NumOrder.gt_lt, H0. exact Hsnd.
    + destruct (IH (S ii) best bi b2) as [[Hall ->] | [j [x [Hj [Hfst [Hgt [Hall [Hfirst Hsnd]]]]]]]].
      * left. split; [ constructor; assumption | reflexivity ].
      * right. exists (S j), x. repeat split.
        -- exact Hj.
        -- rewrite Hfst. f_equal. lia.
        -- exact Hgt.
        -- constructor; [ | exact Hall ].
           rewrite NumOrder.gt_lt in *.
           destruct (PyNum.lt x x0) eqn:Hx; [ | reflexivity ].
           rewrite (NumOrder.lt_trans _ _ _ Hgt Hx) in H0. discriminate.
        -- intros [ | k ] y Hk; simpl.
           ++ intros [= <-]. rewrite NumOrder.gt_lt in *.
              destruct (PyNum.eq x0 x) eqn:Hx; [ | reflexivity ].
              rewrite NumOrder.eq_sym in Hx.
              rewrite (NumOrder.lt_eq_trans _ _ _ Hgt Hx) in H0. discriminate.
           ++ apply Hfirst. lia.
        -- simpl. rewrite H0. exact Hsnd.
Qed.

(** The scan of [make_UID] from the start, when it has found a positive
    intensity: [best_ii] is the index of the first largest intensity, and
    [best2_ii] is what [best_ii] would be on the intensities before it. *)
Lemma uid_scan_first_largest l best best_ii best2_ii :
  uid_scan l 0 (NInt 0) 0 0 = (best, best_ii, best2_ii) ->
  best <> NInt 0 ->
  first_largest l best_ii best
  /\ (best2_ii <= best_ii)%nat
  /\ ((exists x2, first_largest (firstn best_ii l) best2_ii x2)
      \/ (best2_ii = 0%nat
          /\ Forall (fun y => PyNum.gt y (NInt 0) = false) (firstn best_ii l))).
Proof.
  intros Hscan Hbest.
  destruct (uid_scan_spec l 0 (NInt 0) 0 0)
    as [[_ Hnone] | [j [x [Hj [Hfst [Hgt [Hall [Hfirst Hsnd]]]]]]]].
  - rewrite Hnone in Hscan. injection Hscan as <- _ _. destruct Hbest. reflexivity.
  - rewrite Hscan in Hfst, Hsnd. simpl in Hfst, Hsnd. injection Hfst as -> ->.
    split; [ repeat split; assumption | ].
    destruct (uid_scan_spec (firstn j l) 0 (NInt 0) 0 0)
      as [[Hall' Hnone'] | [j' [x' [Hj' [Hfst' [Hgt' [Hall' [Hfirst' _]]]]]]]].
    + rewrite Hnone' in Hsnd. simpl in Hsnd. subst best2_ii.
      split; [ lia | right; split; [ reflexivity | exact Hall' ] ].
    + rewrite Hfst' in Hsnd. simpl in Hsnd. subst best2_ii.
      assert (j' < List.length (firstn j l))%nat
        by (apply nth_error_Some; rewrite Hj'; discriminate).
      rewrite length_firstn in H.
      split; [ lia | left; exists x'; repeat split; assumption ].
Qed.

(** What [make_UID] has computed for a peak with a mass spectrum, when it
    returns. *)
Lemma spectrum_UID_returns ms rt u :
  spectrum_UID ms rt = Ok u ->
  exists best best_ii best2_ii x2 ratio i1 i2,
    uid_scan (mass_spec ms) 0 (NInt 0) 0 0 = (best, best_ii, best2_ii)
    /\ best <> NInt 0
    /\ nth_error (mass_spec ms) best2_ii = Some x2
    /\ percent x2 best = Ok ratio
    /\ int_at (mass_list ms) best_ii = Ok i1
    /\ int_at (mass_list ms) best2_ii = Ok i2
    /\ u = PyNum.format_d i1 ++ "-" ++ PyNum.format_d i2 ++ "-"
           ++ PyNum.format_d ratio ++ "-" ++ PyNum.format_2f rt.
Proof.
  unfold spectrum_UID, percent, int_at.
  destruct (uid_scan (mass_spec ms) 0 (NInt 0) 0 0) as [[best best_ii] best2_ii].
  unfold index at 1.
  destruct (nth_error (mass_spec ms) best2_ii) as [x2 | ] eqn:Hx2; [ | discriminate ].
  cbn [rbind].
  destruct (PyNum.mul (NInt 100) x2) as [hundred_x | ] eqn:Hmul; [ | discriminate ].
  cbn [rbind].
  destruct (PyNum.truediv hundred_x best) as [q | ] eqn:Hdiv; [ | discriminate ].
  cbn [rbind].
  destruct (PyNum.to_int q) as [ratio | ] eqn:Hratio; [ | discriminate ].
  cbn [rbind].
  destruct (index (mass_list ms) best_ii) as [m1 | ] eqn:Hm1; [ | discriminate ].
  cbn [rbind].
  destruct (PyNum.to_int m1) as [i1 | ] eqn:Hi1; [ | discriminate ].
  cbn [rbind].
  destruct (index (mass_list ms) best2_ii) as [m2 | ] eqn:Hm2; [ | discriminate ].
  cbn [rbind].
  destruct (PyNum.to_int m2) as [i2 | ] eqn:Hi2; [ | discriminate ].
  intros [= <-].
  exists best, best_ii, best2_ii, x2, ratio, i1, i2.
  rewrite Hmul, Hm1, Hm2. cbn [rbind]. rewrite Hdiv. cbn [rbind].
  repeat split; try assumption.
  intros ->. destruct (truediv_by_int_zero hundred_x) as [msg Hzero].
  rewrite Hzero in Hdiv. discriminate.
Qed.

Lemma make_UID_returns self self' ms :
  _mass_spectrum self = Some ms ->
  make_UID self = (self', Ok tt) ->
  exists u, spectrum_UID ms (_rt self) = Ok u /\ self' = with_UID u self.
Proof.
  intros Hms. rewrite make_UID_spec. unfold compute_UID. rewrite Hms.
  destruct (spectrum_UID ms (_rt self)) as [u | e]; [ | discriminate ].
  intros [= <-]. exists u. split; reflexivity.
Qed.

(** X14.  The first mass of the UID is that of the first largest
    intensity.  When [make_UID] returns on a peak with a mass spectrum, it
    has assigned the UID and nothing else, and the UID starts with
    [int(mass_list[best_ii])], where the intensity at [best_ii] is
    positive, no intensity is greater than it, and no intensity before
    [best_ii] is equal to it. *)
Theorem make_UID_first_mass (self self' : Peak) (ms : MassSpectrum) :
  _mass_spectrum self = Some ms ->
  make_UID self = (self', Ok tt) ->
  exists best_ii best i1 i2 ratio,
    first_largest (mass_spec ms) best_ii best
    /\ int_at (mass_list ms) best_ii = Ok i1
    /\ self' = with_UID (PyNum.format_d i1 ++ "-" ++ PyNum.format_d i2 ++ "-"
                         ++ PyNum.format_d ratio ++ "-" ++ PyNum.format_2f (_rt self))
                        self.
Proof.
  intros Hms Hret.
  destruct (make_UID_returns self self' ms Hms Hret) as [u [Hu ->]].
  destruct (spectrum_UID_returns ms (_rt self) u Hu)
    as [best [best_ii [best2_ii [x2 [ratio [i1 [i2
          [Hscan [Hbest [_ [_ [Hi1 [_ ->]]]]]]]]]]]]].
  destruct (uid_scan_first_largest _ _ _ _ Hscan Hbest) as [Hfirst _].
  exists best_ii, best, i1, i2, ratio.
  split; [ exact Hfirst | split; [ exact Hi1 | reflexivity ] ].
Qed.

Lemma make_UID_first_mass_witness :
  exists best_ii best i1 i2 ratio,
    first_largest (mass_spec ms_50_60_70) best_ii best
    /\ int_at (mass_list ms_50_60_70) best_ii = Ok i1
    /\ fst (make_UID peak_60_50)
       = with_UID (PyNum.format_d i1 ++ "-" ++ PyNum.format_d i2 ++ "-"
                   ++ PyNum.format_d ratio ++ "-" ++ PyNum.format_2f (_rt peak_60_50))
                  peak_60_50.
Proof.
  apply (make_UID_first_mass peak_60_50 (fst (make_UID peak_60_50)) ms_50_60_70).
  - reflexivity.
  - vm_compute. reflexivity.
Defined.

(** X15.  The second mass of the UID is that of the first largest
    intensity among those before the largest one.  When [make_UID]
    returns on a peak with a mass spectrum, the UID is
    [int(mass_list[best_ii])], [int(mass_list[best2_ii])],
    [int(100 * mass_spec[best2_ii] / mass_spec[best_ii])] and the retention
    time, where [best_ii] is the index of the first largest intensity and
    [best2_ii], never beyond [best_ii], is the index of the first largest
    of the intensities before [best_ii], or 0 when none of these is
    positive. *)
Theorem make_UID_second_mass (self self' : Peak) (ms : MassSpectrum) :
  _mass_spectrum self = Some ms ->
  make_UID self = (self', Ok tt) ->
  exists best_ii best2_ii best x2 i1 i2 ratio,
    first_largest (mass_spec ms) best_ii best
    /\ (best2_ii <= best_ii)%nat
    /\ nth_error (mass_spec ms) best2_ii = Some x2
    /\ (first_largest (firstn best_ii (mass_spec ms)) best2_ii x2
        \/ (best2_ii = 0%nat
            /\ Forall (fun y => PyNum.gt y (NInt 0) = false)
                      (firstn best_ii (mass_spec ms))))
    /\ int_at (mass_list ms) best_ii = Ok i1
    /\ int_at (mass_list ms) best2_ii = Ok i2
    /\ percent x2 best = Ok ratio
    /\ self' = with_UID (PyNum.format_d i1 ++ "-" ++ PyNum.format_d i2 ++ "-"
                         ++ PyNum.format_d ratio ++ "-" ++ PyNum.format_2f (_rt self))
                        self.
Proof.
  intros Hms Hret.
  destruct (make_UID_returns self self' ms Hms Hret) as [u [Hu ->]].
  destruct (spectrum_UID_returns ms (_rt self) u Hu)
    as [best [best_ii [best2_ii [x2 [ratio [i1 [i2
          [Hscan [Hbest [Hx2 [Hratio [Hi1 [Hi2 ->]]]]]]]]]]]]].
  destruct (uid_scan_first_largest _ _ _ _ Hscan Hbest) as [Hfirst [Hle Hsecond]].
  exists best_ii, best2_ii, best, x2, i1, i2, ratio.
  split; [ exact Hfirst | ]. split; [ exact Hle | ]. split; [ exact Hx2 | ].
  split; [ | repeat split; assumption ].
  destruct Hsecond as [[x' Hx'] | Hnone]; [ left | right; exact Hnone ].
  assert (x' = x2) as ->; [ | exact Hx' ].
  destruct Hx' as [Hnth _]. rewrite nth_error_firstn in Hnth.
  destruct (best2_ii <? best_ii)%nat; [ | discriminate ].
  rewrite Hx2 in Hnth. injection Hnth as ->. reflexivity.
Qed.

(** On the intensities [5, 3, 1] of the masses [50, 60, 70], both masses of
    the UID are 50. *)
Lemma make_UID_second_mass_witness :
  exists best_ii best2_ii best x2 i1 i2 ratio,
    first_largest (mass_spec ms_descending) best_ii best
    /\ (best2_ii <= best_ii)%nat
    /\ nth_error (mass_spec ms_descending) best2_ii = Some x2
    /\ (first_largest (firstn best_ii (mass_spec ms_descending)) best2_ii x2
        \/ (best2_ii = 0%nat
            /\ Forall (fun y => PyNum.gt y (NInt 0) = false)
                      (firstn best_ii (mass_spec ms_descending))))
    /\ int_at (mass_list ms_descending) best_ii = Ok i1
    /\ int_at (mass_list ms_descending) best2_ii = Ok i2
    /\ percent x2 best = Ok ratio
    /\ with_UID "50-50-100-0.00" peak_descending
       = with_UID (PyNum.format_d i1 ++ "-" ++ PyNum.format_d i2 ++ "-"
                   ++ PyNum.format_d ratio ++ "-"
                   ++ PyNum.format_2f (_rt peak_descending))
                  peak_descending.
Proof.
  apply (make_UID_second_mass peak_descending
           (with_UID "50-50-100-0.00" peak_descending) ms_descending).
  - reflexivity.
  - vm_compute. reflexivity.
Defined.

Example uid_scan_examples :
  uid_scan (ints [5; 3; 1]) 0 (NInt 0) 0 0 = (NInt 5, 0%nat, 0%nat)
  /\ uid_scan (ints [1; 5; 3]) 0 (NInt 0) 0 0 = (NInt 5, 1%nat, 0%nat)
  /\ _UID peak_descending = "50-50-100-0.00".
Proof. repeat split. Qed.

(** ** [get_third_highest_mz] on increasing intensities *)

Lemma third_scan_increasing l : forall ii best best_ii best2_ii best3_ii,
  increasing (best :: l) ->
  third_scan l ii best best_ii best2_ii best3_ii
  = match List.length l with
    | 0%nat => best3_ii
    | 1%nat => best2_ii
    | 2%nat => best_ii
    | S (S (S n)) => (ii + n)%nat
    end.
Proof.
  induction l as [ | x l IH ]; intros ii best bi b2 b3 Hinc; simpl; [ reflexivity | ].
  unfold increasing in Hinc. inversion Hinc as [ | ? ? Hsorted Hhd ]; subst.
  inversion Hhd as [ | ? ? Hlt ]; subst.
  rewrite NumOrder.gt_lt, Hlt. rewrite (IH (S ii) x ii bi b2 Hsorted).
  destruct (List.length l) as [ | [ | [ | n ]]]; try reflexivity; lia.
Qed.

Lemma StronglySorted_nth {A} (R : A -> A -> Prop) l :
  StronglySorted R l ->
  forall i j a b, (i < j)%nat -> nth_error l i = Some a -> nth_error l j = Some b -> R a b.
Proof.
  induction 1 as [ | x l Hl IH Hx ]; intros i j a b Hij Hi Hj.
  - destruct i; discriminate.
  - destruct j as [ | j ]; [ lia | ]. simpl in Hj.
    destruct i as [ | i ]; simpl in Hi.
    + injection Hi as <-. rewrite Forall_forall in Hx. apply Hx.
      eapply nth_error_In. exact Hj.
    + apply (IH i j); [ lia | assumption | assumption ].
Qed.

Lemma increasing_nth l :
  increasing l ->
  forall i j a b, (i < j)%nat -> nth_error l i = Some a -> nth_error l j = Some b ->
                  PyNum.lt a b = true.
Proof.
  intros Hinc. apply (StronglySorted_nth (fun a b => PyNum.lt a b = true)).
  apply Sorted_StronglySorted; [ | exact Hinc ].
  intros a b c. apply NumOrder.lt_trans.
Qed.

(** X16.  Where the intensities are positive and strictly increasing, at
    least three of them, [get_third_highest_mz] does return the mass of
    the third highest intensity: the mass at the index [n] such that just
    the intensities after [n], two of them, are greater than the one at
    [n]. *)
Theorem third_highest_of_increasing (self : Peak) (ms : MassSpectrum) (n : nat) :
  _mass_spectrum self = Some ms ->
  List.length (mass_list ms) = List.length (mass_spec ms) ->
  increasing (NInt 0 :: mass_spec ms) ->
  List.length (mass_spec ms) = S (S (S n)) ->
  exists m y,
    nth_error (mass_list ms) n = Some m
    /\ nth_error (mass_spec ms) n = Some y
    /\ get_third_highest_mz self = (z <-- PyNum.to_int m ; Ok (Some z))%res
    /\ forall j x, nth_error (mass_spec ms) j = Some x ->
                   (PyNum.gt x y = true <-> (n < j)%nat).
Proof.
  intros Hms Hlen Hinc Hk.
  destruct (nth_error (mass_list ms) n) as [m | ] eqn:Hm.
  2:{ apply nth_error_None in Hm. lia. }
  destruct (nth_error (mass_spec ms) n) as [y | ] eqn:Hy.
  2:{ apply nth_error_None in Hy. lia. }
  exists m, y. repeat split.
  - unfold get_third_highest_mz. rewrite Hms.
    rewrite (third_scan_increasing _ _ _ _ _ _ Hinc), Hk. simpl.
    unfold index. rewrite Hm. reflexivity.
  - intros Hgt. rewrite NumOrder.gt_lt in Hgt.
    destruct (Nat.lt_trichotomy n j) as [Hlt | [-> | Hlt]]; [ exact Hlt | | ].
    + rewrite Hy in H. injection H as ->. rewrite NumOrder.lt_irrefl in Hgt. discriminate.
    + assert (Hxy : PyNum.lt x y = true).
      { apply (increasing_nth _ Hinc (S j) (S n)); [ lia | exact H | exact Hy ]. }
      rewrite (NumOrder.lt_asym _ _ Hxy) in Hgt. discriminate.
  - intros Hlt. rewrite NumOrder.gt_lt.
    apply (increasing_nth _ Hinc (S n) (S j)); [ lia | exact Hy | exact H ].
Qed.

Lemma third_highest_of_increasing_witness :
  exists m y,
    nth_error (ints [50; 60; 70; 80]) 1 = Some m
    /\ nth_error (ints [1; 3; 5; 9]) 1 = Some y
    /\ get_third_highest_mz
         (peak_of (mkMS (ints [50; 60; 70; 80]) (ints [1; 3; 5; 9])) "80-70-55-0.00")
       = (z <-- PyNum.to_int m ; Ok (Some z))%res
    /\ forall j x, nth_error (ints [1; 3; 5; 9]) j = Some x ->
                   (PyNum.gt x y = true <-> (1 < j)%nat).
Proof.
  apply (third_highest_of_increasing
           (peak_of (mkMS (ints [50; 60; 70; 80]) (ints [1; 3; 5; 9])) "80-70-55-0.00")
           (mkMS (ints [50; 60; 70; 80]) (ints [1; 3; 5; 9])) 1); try reflexivity.
  repeat constructor.
Defined.

(** ** The mode that [_make_executable] sets *)

Lemma testbit_292 i :
  0 <= i -> Z.testbit 292 (i + 2) = (i =? 0) || (i =? 3) || (i =? 6).
Proof.
  intros Hi. destruct (Z.le_gt_cases 7 i) as [Hbig | Hsmall].
  - rewrite Z.bits_above_log2 by (simpl; lia).
    destruct (Z.eqb_spec i 0); [ lia | ].
    destruct (Z.eqb_spec i 3); [ lia | ].
    destruct (Z.eqb_spec i 6); [ lia | reflexivity ].
  - assert (H : i = 0 \/ i = 1 \/ i = 2 \/ i = 3 \/ i = 4 \/ i = 5 \/ i = 6) by lia.
    destruct H as [-> | [-> | [-> | [-> | [-> | [-> | ->]]]]]]; reflexivity.
Qed.

Lemma executable_mode_bit mode i :
  0 <= i ->
  Z.testbit (executable_mode mode) i
  = Z.testbit mode i || ((i =? 0) || (i =? 3) || (i =? 6)) && Z.testbit mode (i + 2).
Proof.
  intros Hi. unfold executable_mode.
  rewrite Z.lor_spec, Z.shiftr_spec, Z.land_spec, testbit_292 by lia.
  rewrite (andb_comm (Z.testbit mode (i + 2))). reflexivity.
Qed.

(** X17.  The mode that [_make_executable] sets has the bits of the old
    mode and, for the user, the group and the others, the execute bit
    (bits 6, 3, 0) where the read bit (bits 8, 5, 2) is set.  It clears no
    bit, and computing it again from itself changes nothing. *)
Theorem executable_mode_spec (mode : Z) :
  (forall i, 0 <= i ->
     Z.testbit (executable_mode mode) i
     = Z.testbit mode i
       || ((i =? 0) || (i =? 3) || (i =? 6)) && Z.testbit mode (i + 2))
  /\ Z.land mode (executable_mode mode) = mode
  /\ executable_mode (executable_mode mode) = executable_mode mode.
Proof.
  split; [ intros i Hi; apply executable_mode_bit, Hi | split ].
  - apply Z.bits_inj'. intros i Hi.
    rewrite Z.land_spec, executable_mode_bit by exact Hi.
    destruct (Z.testbit mode i); reflexivity.
  - apply Z.bits_inj'. intros i Hi.
    rewrite !executable_mode_bit by lia.
    assert (Hs : ((i =? 0) || (i =? 3) || (i =? 6))
                 && ((i + 2 =? 0) || (i + 2 =? 3) || (i + 2 =? 6)) = false).
    { destruct (Z.eqb_spec i 0), (Z.eqb_spec i 3), (Z.eqb_spec i 6),
        (Z.eqb_spec (i + 2) 0), (Z.eqb_spec (i + 2) 3), (Z.eqb_spec (i + 2) 6);
        try reflexivity; lia. }
    revert Hs.
    generalize (Z.testbit mode i) (Z.testbit mode (i + 2)) (Z.testbit mode (i + 2 + 2))
               ((i =? 0) || (i =? 3) || (i =? 6))
               ((i + 2 =? 0) || (i + 2 =? 3) || (i + 2 =? 6)).
    intros [ | ] [ | ] [ | ] [ | ] [ | ]; simpl; congruence.
Qed.

Example executable_mode_ex :
  executable_mode 420 = 493 /\ executable_mode 384 = 448 /\ executable_mode 33188 = 33261
  /\ executable_mode 128 = 128.
Proof. repeat split. Qed.
